(** * prim_ops: the operation catalogue of the 3-D NAS U-Net

    A shallow embedding of [prim_ops.py]: the [OPS] registry and its
    [DownOps] / [UpOps] / [NormOps] name lists, the [BaseOp] stage
    pipeline and the four operation classes built over it.

    The tensor library the module calls (torch.nn) is an interface here
    (class [Torch]); the operations are written once against it and then
    run on two carriers: tensor shapes and symbolic expressions. *)

From Stdlib Require Import ZArith List String Ascii Bool Lia QArith.
Import ListNotations.
Local Open Scope string_scope.
Local Open Scope Z_scope.

(** ** Exceptions and results *)

Inductive exn : Type :=
| Warning (msg : string)
| NotImplementedError
| ValueError
| ZeroDivisionError
| AttributeError
| RuntimeError.

Inductive res (A : Type) : Type :=
| Ok (a : A)
| Err (e : exn).
Arguments Ok {A} a.
Arguments Err {A} e.

Definition bind {A B : Type} (m : res A) (k : A -> res B) : res B :=
  match m with
  | Ok a => k a
  | Err e => Err e
  end.

Notation "x <- m ;; k" := (bind m (fun x => k))
  (at level 61, m at next level, right associativity).

Definition is_ok {A : Type} (m : res A) : bool :=
  match m with Ok _ => true | Err _ => false end.

(** ** Strings *)

(** [s.split(sep)] for a one-character separator: the pieces between the
    separators, empty pieces kept; the empty string gives one empty piece. *)
Fixpoint split (sep : ascii) (s : string) : list string :=
  match s with
  | EmptyString => [EmptyString]
  | String ch rest =>
      if Ascii.eqb ch sep then EmptyString :: split sep rest
      else match split sep rest with
           | piece :: pieces => String ch piece :: pieces
           | [] => [String ch EmptyString]
           end
  end.

(** [name in names] on a list of strings. *)
Definition mem (name : string) (names : list string) : bool :=
  existsb (String.eqb name) names.

(** ** The torch.nn modules the operations hold

    Only the hyper-parameters the source passes are recorded; the other
    arguments keep the library's defaults (dilation 1, groups 1,
    output_padding 0, pooling padding 0 and ceil_mode False). *)

Record ConvParams : Type := mkConv {
  conv_in : Z;
  conv_out : Z;
  conv_kernel : Z;
  conv_stride : Z;
  conv_padding : Z;
  conv_dilation : Z;
  conv_groups : Z
}.

Inductive ConvModule : Type :=
| Conv3d (p : ConvParams)
| ConvTranspose3d (p : ConvParams).

Record GroupNorm : Type := mkGroupNorm {
  num_groups : Z;
  num_channels : Z
}.

Inductive PoolModule : Type :=
| AvgPool3d (kernel_size stride : Z)
| MaxPool3d (kernel_size stride : Z).

(** The members of an [nn.Sequential]. *)
Inductive SeqLayer : Type :=
| Linear (in_features out_features : Z)
| ReLU
| Sigmoid.

(** [nn.GroupNorm(group, channels)]: the channel count must be a
    multiple of the group count. *)
Definition new_GroupNorm (group channels : Z) : res GroupNorm :=
  if group =? 0 then Err ZeroDivisionError
  else if negb (channels mod group =? 0) then Err ValueError
  else Ok (mkGroupNorm group channels).

(** [nn.Dropout3d(p)]: the probability must lie in [0, 1]. *)
Definition new_Dropout3d (p : Q) : res Q :=
  if (Qle_bool 0 p && Qle_bool p 1)%bool then Ok p else Err ValueError.

(** Convolution modules: the group count must be positive and divide
    both channel counts. *)
Definition check_conv (p : ConvParams) : res ConvParams :=
  if conv_groups p <=? 0 then Err ValueError
  else if negb (conv_in p mod conv_groups p =? 0) then Err ValueError
  else if negb (conv_out p mod conv_groups p =? 0) then Err ValueError
  else Ok p.

Definition new_Conv3d (p : ConvParams) : res ConvModule :=
  q <- check_conv p ;; Ok (Conv3d q).

Definition new_ConvTranspose3d (p : ConvParams) : res ConvModule :=
  q <- check_conv p ;; Ok (ConvTranspose3d q).

(** ** Operation objects *)

(** What [BaseOp.__init__] sets. *)
Record BaseOp : Type := mkBaseOp {
  ops_list : list string;
  norm : option GroupNorm;
  activation : bool;          (* [nn.ReLU()] present *)
  dropout : option Q          (* [nn.Dropout3d(rate)] *)
}.

(** What each subclass adds. *)
Inductive Body : Type :=
| ConvOps_body (use_depthwise : bool)
               (conv depth_conv point_conv : option ConvModule)
| SEConvOp_body (stride : Z) (avg_pool : Z) (fc : list SeqLayer)
                (conv : option ConvModule)
| PoolingOp_body (pool : PoolModule)
| IdentityOp_body.

Record Op : Type := mkOp {
  base : BaseOp;
  body : Body
}.

Definition BaseOp_init (in_channels out_channels : Z)
           (dropout_rate : Q) (ops_order : string) : res BaseOp :=
  let ops_list := split "_" ops_order in
  norm <- (if mem "norm" ops_list then
             let group := if negb (out_channels mod 16 =? 0) then 1
                          else out_channels / 16 in
             g <- new_GroupNorm group out_channels ;; Ok (Some g)
           else Ok None) ;;
  let activation := mem "act" ops_list in
  dropout <- (if negb (Qle_bool dropout_rate 0) then
                d <- new_Dropout3d dropout_rate ;; Ok (Some d)
              else Ok None) ;;
  Ok (mkBaseOp ops_list norm activation dropout).

(** Keyword arguments and their defaults. *)
Record ConvOps_kw : Type := mkConvKw {
  ck_kernel_size : Z;
  ck_stride : Z;
  ck_dilation : Z;
  ck_use_transpose : bool;
  ck_use_depthwise : bool;
  ck_dropout_rate : Q;
  ck_ops_order : string
}.

Definition ConvOps_defaults : ConvOps_kw :=
  mkConvKw 3 1 1 false false 0%Q "weight_norm_act".

Record SEConvOp_kw : Type := mkSEKw {
  sk_kernel_size : Z;
  sk_stride : Z;
  sk_dilation : Z;
  sk_use_transpose : bool;
  sk_dropout_rate : Q;
  sk_ops_order : string
}.

Definition SEConvOp_defaults : SEConvOp_kw :=
  mkSEKw 3 1 1 false 0%Q "weight_norm".

Record PoolingOp_kw : Type := mkPoolKw {
  pk_kernel_size : Z;
  pk_stride : Z;
  pk_ops_order : string
}.

Definition PoolingOp_defaults : PoolingOp_kw := mkPoolKw 2 2 "weight".

Definition IdentityOp_default_order : string := "weight_norm_act".

Definition ConvOps_init (in_channels out_channels : Z) (kw : ConvOps_kw)
  : res Op :=
  b <- BaseOp_init in_channels out_channels
         (ck_dropout_rate kw) (ck_ops_order kw) ;;
  let kernel_size := ck_kernel_size kw in
  let stride := ck_stride kw in
  let dilation := ck_dilation kw in
  let use_depthwise := ck_use_depthwise kw in
  let padding := (dilation * (kernel_size - 1) - stride + 1) / 2 in
  if ck_use_transpose kw then
    if use_depthwise then
      dc <- new_ConvTranspose3d
              (mkConv in_channels in_channels kernel_size stride padding 1
                      in_channels) ;;
      pc <- new_Conv3d (mkConv in_channels out_channels 1 1 0 1 1) ;;
      Ok (mkOp b (ConvOps_body use_depthwise None (Some dc) (Some pc)))
    else
      c <- new_ConvTranspose3d
             (mkConv in_channels out_channels kernel_size stride padding
                     dilation 1) ;;
      Ok (mkOp b (ConvOps_body use_depthwise (Some c) None None))
  else
    if use_depthwise then
      dc <- new_Conv3d
              (mkConv in_channels in_channels kernel_size stride padding 1
                      in_channels) ;;
      pc <- new_Conv3d (mkConv in_channels out_channels 1 1 0 1 1) ;;
      Ok (mkOp b (ConvOps_body use_depthwise None (Some dc) (Some pc)))
    else
      c <- new_Conv3d
             (mkConv in_channels out_channels kernel_size stride padding
                     dilation 1) ;;
      Ok (mkOp b (ConvOps_body use_depthwise (Some c) None None)).

Definition SEConvOp_init (in_channels out_channels : Z) (kw : SEConvOp_kw)
  : res Op :=
  b <- BaseOp_init in_channels out_channels
         (sk_dropout_rate kw) (sk_ops_order kw) ;;
  let kernel_size := sk_kernel_size kw in
  let stride := sk_stride kw in
  let dilation := sk_dilation kw in
  let padding := (dilation * (kernel_size - 1) - stride + 1) / 2 in
  let avg_pool := 1 in
  let fc := [Linear in_channels 1; ReLU; Linear 1 out_channels; Sigmoid] in
  if 2 <=? stride then
    if sk_use_transpose kw then
      c <- new_ConvTranspose3d
             (mkConv in_channels out_channels kernel_size stride padding 1 1) ;;
      Ok (mkOp b (SEConvOp_body stride avg_pool fc (Some c)))
    else
      c <- new_Conv3d
             (mkConv in_channels out_channels kernel_size stride padding 1 1) ;;
      Ok (mkOp b (SEConvOp_body stride avg_pool fc (Some c)))
  else
    Ok (mkOp (mkBaseOp (ops_list b) None (activation b) (dropout b))
             (SEConvOp_body stride avg_pool fc None)).

Definition PoolingOp_init (in_channels out_channels : Z) (pool_type : string)
           (kw : PoolingOp_kw) : res Op :=
  b <- BaseOp_init in_channels out_channels 0%Q (pk_ops_order kw) ;;
  if String.eqb pool_type "avg" then
    Ok (mkOp b (PoolingOp_body (AvgPool3d (pk_kernel_size kw) (pk_stride kw))))
  else if String.eqb pool_type "max" then
    Ok (mkOp b (PoolingOp_body (MaxPool3d (pk_kernel_size kw) (pk_stride kw))))
  else Err NotImplementedError.

Definition IdentityOp_init (in_channels out_channels : Z) (ops_order : string)
  : res Op :=
  b <- BaseOp_init in_channels out_channels 0%Q ops_order ;;
  Ok (mkOp b IdentityOp_body).

(** A constructor call, as the registry's factories write it; [new]
    runs the class's [__init__]. *)
Inductive OpCall : Type :=
| IdentityOp (in_channels out_channels : Z) (ops_order : string)
| SEConvOp (in_channels out_channels : Z) (kw : SEConvOp_kw)
| ConvOps (in_channels out_channels : Z) (kw : ConvOps_kw)
| PoolingOp (in_channels out_channels : Z) (pool_type : string)
            (kw : PoolingOp_kw).

Definition new (call : OpCall) : res Op :=
  match call with
  | IdentityOp i o order => IdentityOp_init i o order
  | SEConvOp i o kw => SEConvOp_init i o kw
  | ConvOps i o kw => ConvOps_init i o kw
  | PoolingOp i o pool_type kw => PoolingOp_init i o pool_type kw
  end.

Definition call_in_channels (call : OpCall) : Z :=
  match call with
  | IdentityOp i _ _ | SEConvOp i _ _ | ConvOps i _ _ | PoolingOp i _ _ _ => i
  end.

Definition call_out_channels (call : OpCall) : Z :=
  match call with
  | IdentityOp _ o _ | SEConvOp _ o _ | ConvOps _ o _ | PoolingOp _ o _ _ => o
  end.

(** Passing one keyword argument, the others keeping their value. *)
Definition kw_stride (v : Z) (kw : ConvOps_kw) : ConvOps_kw :=
  mkConvKw (ck_kernel_size kw) v (ck_dilation kw) (ck_use_transpose kw)
           (ck_use_depthwise kw) (ck_dropout_rate kw) (ck_ops_order kw).
Definition kw_dilation (v : Z) (kw : ConvOps_kw) : ConvOps_kw :=
  mkConvKw (ck_kernel_size kw) (ck_stride kw) v (ck_use_transpose kw)
           (ck_use_depthwise kw) (ck_dropout_rate kw) (ck_ops_order kw).
Definition kw_use_transpose (v : bool) (kw : ConvOps_kw) : ConvOps_kw :=
  mkConvKw (ck_kernel_size kw) (ck_stride kw) (ck_dilation kw) v
           (ck_use_depthwise kw) (ck_dropout_rate kw) (ck_ops_order kw).
Definition kw_use_depthwise (v : bool) (kw : ConvOps_kw) : ConvOps_kw :=
  mkConvKw (ck_kernel_size kw) (ck_stride kw) (ck_dilation kw)
           (ck_use_transpose kw) v (ck_dropout_rate kw) (ck_ops_order kw).
Definition kw_dropout_rate (v : Q) (kw : ConvOps_kw) : ConvOps_kw :=
  mkConvKw (ck_kernel_size kw) (ck_stride kw) (ck_dilation kw)
           (ck_use_transpose kw) (ck_use_depthwise kw) v (ck_ops_order kw).
Definition se_kw_stride (v : Z) (kw : SEConvOp_kw) : SEConvOp_kw :=
  mkSEKw (sk_kernel_size kw) v (sk_dilation kw) (sk_use_transpose kw)
         (sk_dropout_rate kw) (sk_ops_order kw).
Definition se_kw_use_transpose (v : bool) (kw : SEConvOp_kw) : SEConvOp_kw :=
  mkSEKw (sk_kernel_size kw) (sk_stride kw) (sk_dilation kw) v
         (sk_dropout_rate kw) (sk_ops_order kw).
Definition se_kw_ops_order (v : string) (kw : SEConvOp_kw) : SEConvOp_kw :=
  mkSEKw (sk_kernel_size kw) (sk_stride kw) (sk_dilation kw)
         (sk_use_transpose kw) (sk_dropout_rate kw) v.

(** ** The registry *)

Definition factory : Type := Z -> Z -> OpCall.

Definition OPS : list (string * factory) := [
  ("identity",      fun c stride => IdentityOp c c IdentityOp_default_order);
  ("se_conv",       fun c stride => SEConvOp c c SEConvOp_defaults);
  ("dil_conv",      fun c stride => ConvOps c c (kw_dilation 2 ConvOps_defaults));
  ("dep_conv",      fun c stride => ConvOps c c (kw_use_depthwise true ConvOps_defaults));
  ("conv",          fun c stride => ConvOps c c ConvOps_defaults);
  ("avg_pool",      fun c stride => PoolingOp c c "avg" PoolingOp_defaults);
  ("max_pool",      fun c stride => PoolingOp c c "max" PoolingOp_defaults);
  ("down_se_conv",  fun c stride => SEConvOp c c (se_kw_stride 2 SEConvOp_defaults));
  ("down_dil_conv", fun c stride => ConvOps c c (kw_stride 2 (kw_dilation 2 ConvOps_defaults)));
  ("down_dep_conv", fun c stride => ConvOps c c (kw_stride 2 (kw_use_depthwise true ConvOps_defaults)));
  ("down_conv",     fun c stride => ConvOps c c (kw_stride 2 ConvOps_defaults));
  ("up_se_conv",    fun c stride => SEConvOp c c (se_kw_stride 2 (se_kw_use_transpose true SEConvOp_defaults)));
  ("up_dep_conv",   fun c stride => ConvOps c c (kw_stride 2 (kw_use_depthwise true (kw_use_transpose true ConvOps_defaults))));
  ("up_conv",       fun c stride => ConvOps c c (kw_stride 2 (kw_use_transpose true ConvOps_defaults)));
  ("up_dil_conv",   fun c stride => ConvOps c c (kw_stride 2 (kw_dilation 2 (kw_use_transpose true ConvOps_defaults))))
].

Definition DownOps : list string := [
  "avg_pool"; "max_pool"; "down_se_conv"; "down_dil_conv"; "down_dep_conv";
  "down_conv"
].

Definition UpOps : list string := [
  "up_se_conv"; "up_dep_conv"; "up_conv"; "up_dil_conv"
].

Definition NormOps : list string := [
  "identity"; "se_conv"; "dil_conv"; "dep_conv"; "conv"
].

(** The keys of a dict display, in the order written. *)
Definition keys {V : Type} (items : list (string * V)) : list string :=
  map fst items.

(** [d[name]] for a dict display: of two items with one key the later
    one is kept. *)
Fixpoint dict_get {V : Type} (items : list (string * V)) (name : string)
  : option V :=
  match items with
  | [] => None
  | (k, v) :: rest =>
      match dict_get rest name with
      | Some v' => Some v'
      | None => if String.eqb k name then Some v else None
      end
  end.

(** ** The tensor library, as an interface

    One method per torch call in the source.  Modules that own learnable
    parameters are passed with the attribute path they have in the
    operation ([conv], [depth_conv], [point_conv], [fc.0], [fc.2],
    [norm]), under which an implementation finds their parameters. *)

Class Torch (T : Type) : Type := {
  conv_call : string -> ConvModule -> T -> res T;
  group_norm_call : string -> GroupNorm -> T -> res T;
  relu_call : T -> res T;
  sigmoid_call : T -> res T;
  dropout3d_call : Q -> T -> res T;
  pool_call : PoolModule -> T -> res T;
  adaptive_avg_pool3d_call : Z -> T -> res T;
  linear_call : string -> Z -> Z -> T -> res T;
  size : T -> list Z;
  view : list Z -> T -> res T;
  mul : T -> T -> res T
}.

Section Forward.
Context {T : Type} `{Torch T}.

(** A module attribute that may be missing. *)
Definition attr {A : Type} (a : option A) : res A :=
  match a with
  | Some v => Ok v
  | None => Err AttributeError
  end.

(** [nn.Sequential.__call__]: the layers in order, named by position. *)
Fixpoint sequential_call (prefix : string) (idx : nat)
         (layers : list SeqLayer) (x : T) : res T :=
  match layers with
  | [] => Ok x
  | layer :: rest =>
      y <- match layer with
           | Linear i o =>
               linear_call (prefix ++ "." ++ String (ascii_of_nat (48 + idx)) "")
                           i o x
           | ReLU => relu_call x
           | Sigmoid => sigmoid_call x
           end ;;
      sequential_call prefix (S idx) rest y
  end.

(** The gate of [SEConvOp.weight_call]: the value of [y] before the
    product. *)
Definition se_gate (avg_pool : Z) (fc : list SeqLayer) (x : T) : res T :=
  match size x with
  | batch_size :: channels :: _ =>
      p <- adaptive_avg_pool3d_call avg_pool x ;;
      y <- view [batch_size; channels] p ;;
      g <- sequential_call "fc" 0 fc y ;;
      view [batch_size; channels; 1; 1; 1] g
  | _ => Err ValueError
  end.

Definition weight_call (op : Op) (x : T) : res T :=
  match body op with
  | ConvOps_body use_depthwise conv depth_conv point_conv =>
      if use_depthwise then
        dc <- attr depth_conv ;;
        x1 <- conv_call "depth_conv" dc x ;;
        pc <- attr point_conv ;;
        conv_call "point_conv" pc x1
      else
        c <- attr conv ;;
        conv_call "conv" c x
  | SEConvOp_body stride avg_pool fc conv =>
      y <- se_gate avg_pool fc x ;;
      xy <- mul x y ;;
      if 2 <=? stride then
        c <- attr conv ;;
        conv_call "conv" c xy
      else Ok xy
  | PoolingOp_body pool => pool_call pool x
  | IdentityOp_body => Ok x
  end.

(** One turn of the loop of [BaseOp.forward]. *)
Definition stage (op : Op) (tok : string) (x : T) : res T :=
  if String.eqb tok "weight" then
    x1 <- match dropout (base op) with
          | Some p => dropout3d_call p x
          | None => Ok x
          end ;;
    weight_call op x1
  else if String.eqb tok "norm" then
    match norm (base op) with
    | Some g => group_norm_call "norm" g x
    | None => Ok x
    end
  else if String.eqb tok "act" then
    if activation (base op) then relu_call x else Ok x
  else Err (Warning ("Unrecognized op: " ++ tok)).

Fixpoint stages (op : Op) (toks : list string) (x : T) : res T :=
  match toks with
  | [] => Ok x
  | tok :: rest => x1 <- stage op tok x ;; stages op rest x1
  end.

Definition forward (op : Op) (x : T) : res T :=
  stages op (ops_list (base op)) x.
End Forward.

(** ** First carrier: tensor shapes

    A tensor is its shape [[N; C; D; H; W]].  The output sizes are the
    ones the library documents for each module; a call the library
    rejects is an error. *)

Module Shape.

Definition shape : Type := list Z.

Definition all_pos (dims : list Z) : bool := forallb (fun d => 1 <=? d) dims.

Definition prod (dims : list Z) : Z := fold_right Z.mul 1 dims.

(** Conv3d: floor((d + 2*padding - dilation*(kernel-1) - 1) / stride) + 1. *)
Definition conv_out_dim (p : ConvParams) (d : Z) : Z :=
  (d + 2 * conv_padding p - conv_dilation p * (conv_kernel p - 1) - 1)
    / conv_stride p + 1.

(** ConvTranspose3d:
    (d - 1)*stride - 2*padding + dilation*(kernel-1) + output_padding + 1,
    with output_padding 0. *)
Definition conv_transpose_out_dim (p : ConvParams) (d : Z) : Z :=
  (d - 1) * conv_stride p - 2 * conv_padding p
    + conv_dilation p * (conv_kernel p - 1) + 0 + 1.

(** AvgPool3d / MaxPool3d with padding 0: floor((d - kernel) / stride) + 1. *)
Definition pool_out_dim (kernel_size stride d : Z) : Z :=
  (d - kernel_size) / stride + 1.

Definition conv_args_ok (p : ConvParams) : bool :=
  (1 <=? conv_kernel p) && (1 <=? conv_stride p) && (0 <=? conv_padding p)
  && (1 <=? conv_dilation p).

Definition conv_shape (m : ConvModule) (x : shape) : res shape :=
  match x with
  | [n; c; d; h; w] =>
      match m with
      | Conv3d p =>
          if conv_args_ok p && (1 <=? conv_in p) && (1 <=? conv_out p)
             && (c =? conv_in p) && all_pos [d; h; w]
             && forallb (fun d => conv_dilation p * (conv_kernel p - 1) + 1
                                  <=? d + 2 * conv_padding p) [d; h; w]
          then Ok (n :: conv_out p :: map (conv_out_dim p) [d; h; w])
          else Err RuntimeError
      | ConvTranspose3d p =>
          if conv_args_ok p && (1 <=? conv_in p) && (1 <=? conv_out p)
             && (c =? conv_in p) && all_pos [d; h; w]
             && all_pos (map (conv_transpose_out_dim p) [d; h; w])
          then Ok (n :: conv_out p :: map (conv_transpose_out_dim p) [d; h; w])
          else Err RuntimeError
      end
  | _ => Err RuntimeError
  end.

(** Group normalization keeps the shape; it wants the module's channel
    count and more than one value per group and sample. *)
Definition group_norm_shape (g : GroupNorm) (x : shape) : res shape :=
  match x with
  | n :: c :: spatial =>
      if negb (c =? num_channels g) then Err RuntimeError
      else if n * c / num_groups g * prod spatial =? 1 then Err ValueError
      else Ok x
  | _ => Err RuntimeError
  end.

Definition pool_shape (m : PoolModule) (x : shape) : res shape :=
  match x with
  | [n; c; d; h; w] =>
      let '(k, s) := match m with
                     | AvgPool3d k s => (k, s)
                     | MaxPool3d k s => (k, s)
                     end in
      if (1 <=? k) && (1 <=? s) && all_pos [c; d; h; w]
         && all_pos (map (pool_out_dim k s) [d; h; w])
      then Ok (n :: c :: map (pool_out_dim k s) [d; h; w])
      else Err RuntimeError
  | _ => Err RuntimeError
  end.

Definition adaptive_avg_pool3d_shape (out : Z) (x : shape) : res shape :=
  match x with
  | [n; c; d; h; w] =>
      if all_pos [d; h; w] then Ok [n; c; out; out; out]
      else Err RuntimeError
  | _ => Err RuntimeError
  end.

(** Linear acts on the last dimension. *)
Fixpoint linear_shape (i o : Z) (x : shape) : res shape :=
  match x with
  | [] => Err RuntimeError
  | [last] => if last =? i then Ok [o] else Err RuntimeError
  | d :: rest => r <- linear_shape i o rest ;; Ok (d :: r)
  end.

Definition view_shape (new_shape : list Z) (x : shape) : res shape :=
  if forallb (fun d => 0 <=? d) new_shape && (prod new_shape =? prod x)
  then Ok new_shape else Err RuntimeError.

(** Broadcasting, on the shapes read from the last dimension. *)
Fixpoint broadcast_rev (a b : list Z) : res (list Z) :=
  match a, b with
  | [], _ => Ok b
  | _, [] => Ok a
  | x :: a', y :: b' =>
      r <- broadcast_rev a' b' ;;
      if x =? y then Ok (x :: r)
      else if x =? 1 then Ok (y :: r)
      else if y =? 1 then Ok (x :: r)
      else Err RuntimeError
  end.

Definition mul_shape (a b : shape) : res shape :=
  r <- broadcast_rev (rev a) (rev b) ;; Ok (rev r).

#[global] Instance torch : Torch shape := {
  conv_call := fun _ m x => conv_shape m x;
  group_norm_call := fun _ g x => group_norm_shape g x;
  relu_call := fun x => Ok x;
  sigmoid_call := fun x => Ok x;
  dropout3d_call := fun _ x => Ok x;
  pool_call := pool_shape;
  adaptive_avg_pool3d_call := adaptive_avg_pool3d_shape;
  linear_call := fun _ i o x => linear_shape i o x;
  size := fun x => x;
  view := view_shape;
  mul := mul_shape
}.

(** Build the operation, then apply it. *)
Definition apply (call : OpCall) (x : shape) : res shape :=
  op <- new call ;; forward op x.

End Shape.

(** ** Second carrier: symbolic expressions

    A tensor is the expression that computes it, so that the order of
    the library calls can be read off the result.  No call fails; the
    size of an expression is the shape the first carrier gives it. *)

Module Sym.

Inductive term : Type :=
| Input (name : string) (shape : list Z)
| ConvT (path : string) (m : ConvModule) (t : term)
| GroupNormT (path : string) (g : GroupNorm) (t : term)
| ReluT (t : term)
| SigmoidT (t : term)
| Dropout3dT (p : Q) (t : term)
| PoolT (m : PoolModule) (t : term)
| AdaptiveAvgPool3dT (out : Z) (t : term)
| LinearT (path : string) (i o : Z) (t : term)
| ViewT (new_shape : list Z) (t : term)
| MulT (a b : term).

Fixpoint shape_of (t : term) : res Shape.shape :=
  match t with
  | Input _ s => Ok s
  | ConvT _ m t => s <- shape_of t ;; Shape.conv_shape m s
  | GroupNormT _ g t => s <- shape_of t ;; Shape.group_norm_shape g s
  | ReluT t | SigmoidT t | Dropout3dT _ t => shape_of t
  | PoolT m t => s <- shape_of t ;; Shape.pool_shape m s
  | AdaptiveAvgPool3dT out t =>
      s <- shape_of t ;; Shape.adaptive_avg_pool3d_shape out s
  | LinearT _ i o t => s <- shape_of t ;; Shape.linear_shape i o s
  | ViewT new_shape t => s <- shape_of t ;; Shape.view_shape new_shape s
  | MulT a b => sa <- shape_of a ;; sb <- shape_of b ;; Shape.mul_shape sa sb
  end.

#[global] Instance torch : Torch term := {
  conv_call := fun path m x => Ok (ConvT path m x);
  group_norm_call := fun path g x => Ok (GroupNormT path g x);
  relu_call := fun x => Ok (ReluT x);
  sigmoid_call := fun x => Ok (SigmoidT x);
  dropout3d_call := fun p x => Ok (Dropout3dT p x);
  pool_call := fun m x => Ok (PoolT m x);
  adaptive_avg_pool3d_call := fun out x => Ok (AdaptiveAvgPool3dT out x);
  linear_call := fun path i o x => Ok (LinearT path i o x);
  size := fun x => match shape_of x with Ok s => s | Err _ => [] end;
  view := fun new_shape x => Ok (ViewT new_shape x);
  mul := fun a b => Ok (MulT a b)
}.

(** The number of library calls in an expression. *)
Fixpoint calls (t : term) : nat :=
  match t with
  | Input _ _ => O
  | ConvT _ _ t | GroupNormT _ _ t | ReluT t | SigmoidT t | Dropout3dT _ t
  | PoolT _ t | AdaptiveAvgPool3dT _ t | LinearT _ _ _ t | ViewT _ t =>
      S (calls t)
  | MulT a b => S (calls a + calls b)
  end.

(** Whether a group normalization occurs in an expression. *)
Fixpoint has_group_norm (t : term) : bool :=
  match t with
  | Input _ _ => false
  | GroupNormT _ _ _ => true
  | ConvT _ _ t | ReluT t | SigmoidT t | Dropout3dT _ t | PoolT _ t
  | AdaptiveAvgPool3dT _ t | LinearT _ _ _ t | ViewT _ t => has_group_norm t
  | MulT a b => has_group_norm a || has_group_norm b
  end.

End Sym.

(** ** Vocabulary of the properties *)

(** The stage tokens [BaseOp.forward] knows. *)
Definition recognized (tok : string) : bool :=
  String.eqb tok "weight" || String.eqb tok "norm" || String.eqb tok "act".

(** The [ops_order] and [dropout_rate] a constructor call hands to
    [BaseOp.__init__]. *)
Definition call_ops_order (call : OpCall) : string :=
  match call with
  | IdentityOp _ _ order => order
  | SEConvOp _ _ kw => sk_ops_order kw
  | ConvOps _ _ kw => ck_ops_order kw
  | PoolingOp _ _ _ kw => pk_ops_order kw
  end.

Definition call_dropout_rate (call : OpCall) : Q :=
  match call with
  | SEConvOp _ _ kw => sk_dropout_rate kw
  | ConvOps _ _ kw => ck_dropout_rate kw
  | IdentityOp _ _ _ | PoolingOp _ _ _ _ => 0%Q
  end.

(** The calls whose constructor resets [self.norm] to [None]. *)
Definition norm_disabled (call : OpCall) : bool :=
  match call with
  | SEConvOp _ _ kw => negb (2 <=? sk_stride kw)
  | _ => false
  end.

(** The group count as the specification words it: out_channels / 16
    when out_channels is divisible by 16, and 1 otherwise. *)
Definition group_count (out_channels : Z) : Z :=
  if out_channels mod 16 =? 0 then out_channels / 16 else 1.

(** Dropout only when the rate is positive. *)
Definition dropout_if_positive {T : Type} `{Torch T} (rate : Q) (x : T)
  : res T :=
  if negb (Qle_bool rate 0) then dropout3d_call rate x else Ok x.

(** The spatial size the specification words for an entry: floor-divided
    by the stride for the down-ops, multiplied by the stride for the
    up-ops, unchanged for the others. *)
Definition claimed_spatial (name : string) (stride d : Z) : Z :=
  if mem name DownOps then d / stride
  else if mem name UpOps then d * stride
  else d.

(** The spatial size an entry produces, by its name ([registry_shapes]). *)
Definition spatial_out (name : string) (d : Z) : Z :=
  if mem name NormOps then d
  else if String.eqb name "avg_pool" || String.eqb name "max_pool" then d / 2
  else if mem name DownOps then (d - 3) / 2 + 1
  else 2 * d + 1.

Definition disjoint (a b : list string) : Prop :=
  forall name, In name a -> ~ In name b.

(** Boolean checks on name lists. *)
Fixpoint distinctb (names : list string) : bool :=
  match names with
  | [] => true
  | name :: rest => negb (mem name rest) && distinctb rest
  end.

Definition disjointb (a b : list string) : bool :=
  forallb (fun name => negb (mem name b)) a.

Definition inclb (a b : list string) : bool :=
  forallb (fun name => mem name b) a.

(** The stride and the transposition a constructor call asks for;
    an [IdentityOp] has neither. *)
Definition call_stride (call : OpCall) : option Z :=
  match call with
  | IdentityOp _ _ _ => None
  | SEConvOp _ _ kw => Some (sk_stride kw)
  | ConvOps _ _ kw => Some (ck_stride kw)
  | PoolingOp _ _ _ kw => Some (pk_stride kw)
  end.

Definition call_use_transpose (call : OpCall) : bool :=
  match call with
  | SEConvOp _ _ kw => sk_use_transpose kw
  | ConvOps _ _ kw => ck_use_transpose kw
  | IdentityOp _ _ _ | PoolingOp _ _ _ _ => false
  end.

(** Constructor arguments the library accepts: positive channel
    counts, kernel size, stride and dilation, a padding that is not
    negative, a dropout rate of at most 1, a known pooling type. *)
Definition well_formed_call (call : OpCall) : Prop :=
  1 <= call_in_channels call /\ 1 <= call_out_channels call
  /\ Qle_bool (call_dropout_rate call) 1 = true
  /\ match call with
     | IdentityOp _ _ _ => True
     | SEConvOp _ _ kw =>
         1 <= sk_kernel_size kw /\ 1 <= sk_stride kw /\ 1 <= sk_dilation kw
         /\ sk_stride kw <= sk_dilation kw * (sk_kernel_size kw - 1) + 1
     | ConvOps _ _ kw =>
         1 <= ck_kernel_size kw /\ 1 <= ck_stride kw /\ 1 <= ck_dilation kw
         /\ ck_stride kw <= ck_dilation kw * (ck_kernel_size kw - 1) + 1
     | PoolingOp _ _ pool_type kw =>
         (pool_type = "avg" \/ pool_type = "max")
         /\ 1 <= pk_kernel_size kw /\ 1 <= pk_stride kw
     end.

Definition is_SEConvOp (call : OpCall) : bool :=
  match call with
  | SEConvOp _ _ _ => true
  | _ => false
  end.

(** * Properties *)

(** ** Name lists *)

Lemma mem_In (name : string) (names : list string) :
  mem name names = true <-> In name names.
Proof.
  unfold mem. rewrite existsb_exists. split.
  - intros [y [Hin Heq]]. apply String.eqb_eq in Heq. now subst.
  - intros Hin. exists name. split; [assumption | apply String.eqb_refl].
Qed.

Lemma mem_false (name : string) (names : list string) :
  mem name names = false <-> ~ In name names.
Proof.
  rewrite <- mem_In. destruct (mem name names); split; intro; congruence.
Qed.

Lemma distinctb_NoDup (names : list string) :
  distinctb names = true -> NoDup names.
Proof.
  induction names as [|name rest IH]; simpl; intros Hd.
  - constructor.
  - apply andb_prop in Hd as [Hm Hr]. constructor.
    + apply mem_false. now destruct (mem name rest).
    + auto.
Qed.

Lemma disjointb_disjoint (a b : list string) :
  disjointb a b = true -> disjoint a b.
Proof.
  unfold disjointb, disjoint. rewrite forallb_forall.
  intros Hall name Hin. apply mem_false.
  specialize (Hall name Hin). now destruct (mem name b).
Qed.

Lemma inclb_incl (a b : list string) : inclb a b = true -> incl a b.
Proof.
  unfold inclb, incl. rewrite forallb_forall.
  intros Hall name Hin. apply mem_In. auto.
Qed.

(** C8. The names of the OPS registry are unique; DownOps, UpOps and
    NormOps are duplicate-free, pairwise disjoint, and made of registry
    keys only. *)
Theorem registry_name_lists :
  NoDup (keys OPS)
  /\ NoDup DownOps /\ NoDup UpOps /\ NoDup NormOps
  /\ disjoint DownOps UpOps /\ disjoint DownOps NormOps
  /\ disjoint UpOps NormOps
  /\ incl DownOps (keys OPS) /\ incl UpOps (keys OPS)
  /\ incl NormOps (keys OPS).
Proof.
  repeat split;
    first [ apply distinctb_NoDup | apply disjointb_disjoint | apply inclb_incl ];
    vm_compute; reflexivity.
Qed.

(** The three lists also cover the registry: every key is in one of them. *)
Lemma registry_keys_covered :
  incl (keys OPS) (NormOps ++ DownOps ++ UpOps).
Proof. apply inclb_incl. vm_compute. reflexivity. Qed.

(** ** The registry's factories *)

Lemma dict_get_In {V : Type} (items : list (string * V)) name v :
  dict_get items name = Some v -> In (name, v) items.
Proof.
  induction items as [|[k w] rest IH]; simpl; [discriminate|].
  destruct (dict_get rest name) as [v'|] eqn:Hrest.
  - intros Heq. injection Heq as ->. right. now apply IH.
  - destruct (String.eqb k name) eqn:Hk; [|discriminate].
    apply String.eqb_eq in Hk. intros Heq. injection Heq as ->.
    subst. now left.
Qed.

(** Case analysis on a registry entry. *)
Ltac registry_cases H :=
  apply dict_get_In in H; simpl in H;
  repeat (destruct H as [H|H]; [injection H as <- <- |]);
  [ .. | contradiction ].

(** C9. Every factory of the registry ignores its stride argument and
    builds its operation with out_channels equal to in_channels: for any
    two strides the constructor calls, the operations built and their
    effect on shapes are the same. *)
Theorem factory_ignores_stride :
  forall name f, dict_get OPS name = Some f ->
  forall c s1 s2,
    f c s1 = f c s2
    /\ call_in_channels (f c s1) = c
    /\ call_out_channels (f c s1) = c
    /\ new (f c s1) = new (f c s2)
    /\ forall x, Shape.apply (f c s1) x = Shape.apply (f c s2) x.
Proof.
  intros name f Hget c s1 s2.
  registry_cases Hget; repeat split; reflexivity.
Qed.

Lemma factory_ignores_stride_witness :
  exists f, dict_get OPS "down_conv" = Some f
    /\ f 16 1 = f 16 2
    /\ call_in_channels (f 16 1) = 16
    /\ call_out_channels (f 16 1) = 16
    /\ new (f 16 1) = new (f 16 2)
    /\ forall x, Shape.apply (f 16 1) x = Shape.apply (f 16 2) x.
Proof.
  eexists. split; [reflexivity|].
  apply (factory_ignores_stride "down_conv"). reflexivity.
Defined.

(** ** Construction *)

Lemma bind_Ok {A B : Type} (m : res A) (k : A -> res B) (b : B) :
  bind m k = Ok b -> exists a, m = Ok a /\ k a = Ok b.
Proof. destruct m as [a|e]; simpl; [eauto | discriminate]. Qed.

Ltac inv_bind H :=
  let a := fresh "a" in
  let Ha := fresh "Ha" in
  apply bind_Ok in H; destruct H as [a [Ha H]].

Lemma new_GroupNorm_Ok group channels g :
  new_GroupNorm group channels = Ok g -> g = mkGroupNorm group channels.
Proof.
  unfold new_GroupNorm.
  destruct (group =? 0); [discriminate|].
  destruct (negb (channels mod group =? 0)); [discriminate|].
  now intros [= <-].
Qed.

Lemma new_Dropout3d_Ok p d : new_Dropout3d p = Ok d -> d = p.
Proof.
  unfold new_Dropout3d.
  destruct (Qle_bool 0 p && Qle_bool p 1)%bool; [|discriminate].
  now intros [= <-].
Qed.

(** What [BaseOp.__init__] leaves in the object. *)
Lemma BaseOp_init_fields i o rate order b :
  BaseOp_init i o rate order = Ok b ->
  ops_list b = split "_" order
  /\ norm b = (if mem "norm" (split "_" order)
               then Some (mkGroupNorm (group_count o) o) else None)
  /\ activation b = mem "act" (split "_" order)
  /\ dropout b = (if negb (Qle_bool rate 0) then Some rate else None).
Proof.
  unfold BaseOp_init. intros Hb.
  inv_bind Hb. inv_bind Hb. injection Hb as <-. simpl.
  repeat split.
  - destruct (mem "norm" (split "_" order)).
    + inv_bind Ha. injection Ha as <-.
      apply new_GroupNorm_Ok in Ha1. subst. unfold group_count.
      now destruct (o mod 16 =? 0).
    + now injection Ha as <-.
  - destruct (negb (Qle_bool rate 0)).
    + inv_bind Ha0. injection Ha0 as <-.
      apply new_Dropout3d_Ok in Ha1. now subst.
    + now injection Ha0 as <-.
Qed.

(** Every constructor starts with [BaseOp.__init__]; only a [SEConvOp]
    with stride below 2 changes what it set, by clearing [norm]. *)
Lemma new_base call op :
  new call = Ok op ->
  exists b,
    BaseOp_init (call_in_channels call) (call_out_channels call)
                (call_dropout_rate call) (call_ops_order call) = Ok b
    /\ base op = (if norm_disabled call
                  then mkBaseOp (ops_list b) None (activation b) (dropout b)
                  else b).
Proof.
  destruct call as [i o order | i o kw | i o kw | i o pt kw]; simpl;
    intros Hnew.
  - unfold IdentityOp_init in Hnew. inv_bind Hnew. injection Hnew as <-.
    eauto.
  - unfold SEConvOp_init in Hnew. inv_bind Hnew. exists a. split; [assumption|].
    destruct (2 <=? sk_stride kw); simpl.
    + destruct (sk_use_transpose kw); inv_bind Hnew; now injection Hnew as <-.
    + now injection Hnew as <-.
  - unfold ConvOps_init in Hnew. inv_bind Hnew. exists a. split; [assumption|].
    destruct (ck_use_transpose kw), (ck_use_depthwise kw);
      repeat inv_bind Hnew; now injection Hnew as <-.
  - unfold PoolingOp_init in Hnew. inv_bind Hnew. exists a. split; [assumption|].
    destruct (String.eqb pt "avg"); [now injection Hnew as <-|].
    destruct (String.eqb pt "max"); [now injection Hnew as <-|discriminate].
Qed.

Lemma new_ops_list call op :
  new call = Ok op -> ops_list (base op) = split "_" (call_ops_order call).
Proof.
  intros Hnew. destruct (new_base _ _ Hnew) as [b [Hb Hbase]].
  apply BaseOp_init_fields in Hb as [Hl _].
  rewrite Hbase. now destruct (norm_disabled call).
Qed.

Lemma new_norm call op :
  new call = Ok op ->
  norm (base op) =
    (if norm_disabled call then None
     else if mem "norm" (split "_" (call_ops_order call))
          then Some (mkGroupNorm (group_count (call_out_channels call))
                                 (call_out_channels call))
          else None).
Proof.
  intros Hnew. destruct (new_base _ _ Hnew) as [b [Hb Hbase]].
  apply BaseOp_init_fields in Hb as [_ [Hn _]].
  rewrite Hbase. now destruct (norm_disabled call).
Qed.

Lemma new_activation call op :
  new call = Ok op ->
  activation (base op) = mem "act" (split "_" (call_ops_order call)).
Proof.
  intros Hnew. destruct (new_base _ _ Hnew) as [b [Hb Hbase]].
  apply BaseOp_init_fields in Hb as [_ [_ [Ha _]]].
  rewrite Hbase. now destruct (norm_disabled call).
Qed.

Lemma new_dropout call op :
  new call = Ok op ->
  dropout (base op) =
    (if negb (Qle_bool (call_dropout_rate call) 0)
     then Some (call_dropout_rate call) else None).
Proof.
  intros Hnew. destruct (new_base _ _ Hnew) as [b [Hb Hbase]].
  apply BaseOp_init_fields in Hb as [_ [_ [_ Hd]]].
  rewrite Hbase. now destruct (norm_disabled call).
Qed.

(** The group count [BaseOp.__init__] computes is a valid one. *)
Lemma new_GroupNorm_group_count c :
  1 <= c -> new_GroupNorm (group_count c) c = Ok (mkGroupNorm (group_count c) c).
Proof.
  intros Hc. unfold new_GroupNorm, group_count.
  destruct (c mod 16 =? 0) eqn:Hm.
  - apply Z.eqb_eq in Hm.
    assert (Hq : c = 16 * (c / 16)) by (apply Z.div_exact; lia).
    assert (Hpos : 1 <= c / 16) by lia.
    replace (c / 16 =? 0) with false by (symmetry; apply Z.eqb_neq; lia).
    assert (Hd : c mod (c / 16) = 0).
    { apply Z.mod_divide; [lia|]. exists 16. lia. }
    now rewrite Hd.
  - simpl. now rewrite Z.mod_1_r.
Qed.

Lemma BaseOp_init_Ok i o rate order :
  1 <= o -> Qle_bool rate 1 = true ->
  exists b, BaseOp_init i o rate order = Ok b.
Proof.
  intros Ho Hr. unfold BaseOp_init.
  assert (Hg : (if negb (o mod 16 =? 0) then 1 else o / 16) = group_count o)
    by (unfold group_count; now destruct (o mod 16 =? 0)).
  rewrite Hg, (new_GroupNorm_group_count o Ho).
  destruct (mem "norm" (split "_" order)); simpl;
    (destruct (Qle_bool rate 0) eqn:H0; simpl; [eauto|]);
    unfold new_Dropout3d;
    (replace (Qle_bool 0 rate) with true; [rewrite Hr; simpl; eauto|]);
    symmetry; apply Qle_bool_iff, Qlt_le_weak, Qnot_le_lt;
    rewrite <- Qle_bool_iff; congruence.
Qed.

(** C5. For an operation built with 'norm' in its ops-order, the group
    normalization has out_channels / 16 groups when out_channels is
    divisible by 16 and one group otherwise; it is present unless the
    constructor cleared it. 48 channels give 3 groups, 20 give 1. *)
Theorem norm_group_count :
  (forall call op,
     new call = Ok op ->
     mem "norm" (split "_" (call_ops_order call)) = true ->
     (forall g, norm (base op) = Some g ->
        num_groups g = group_count (call_out_channels call)
        /\ num_channels g = call_out_channels call)
     /\ (norm_disabled call = false ->
         norm (base op) =
           Some (mkGroupNorm (group_count (call_out_channels call))
                             (call_out_channels call))))
  /\ group_count 48 = 3 /\ group_count 20 = 1.
Proof.
  split; [|split; reflexivity].
  intros call op Hnew Hmem.
  pose proof (new_norm _ _ Hnew) as Hn. rewrite Hmem in Hn.
  split.
  - intros g Hg. rewrite Hg in Hn.
    destruct (norm_disabled call); [discriminate|].
    injection Hn as ->. split; reflexivity.
  - intros Hd. now rewrite Hd in Hn.
Qed.

Lemma norm_group_count_witness :
  exists op,
    new (ConvOps 32 48 ConvOps_defaults) = Ok op
    /\ mem "norm" (split "_" "weight_norm_act") = true
    /\ norm (base op) = Some (mkGroupNorm 3 48).
Proof.
  eexists. split; [reflexivity|]. split; [reflexivity|].
  refine (proj2 (proj1 norm_group_count (ConvOps 32 48 ConvOps_defaults)
                   _ eq_refl eq_refl) eq_refl).
Defined.

Example norm_group_count_20 :
  exists op, new (IdentityOp 20 20 "norm") = Ok op
             /\ norm (base op) = Some (mkGroupNorm 1 20).
Proof. eexists. split; reflexivity. Qed.

(** C6. A PoolingOp whose pool_type is neither 'avg' nor 'max' is never
    built: its constructor raises NotImplementedError (once
    [BaseOp.__init__] has returned).  With 'avg' and 'max' and the default
    keyword arguments it builds pooling with kernel size 2 and stride 2. *)
Theorem pooling_type_checked :
  forall i o,
    (forall pool_type,
       pool_type <> "avg" -> pool_type <> "max" ->
       new (PoolingOp i o pool_type PoolingOp_defaults)
       = Err NotImplementedError
       /\ (forall kw, is_ok (new (PoolingOp i o pool_type kw)) = false)
       /\ (forall kw, is_ok (BaseOp_init i o 0%Q (pk_ops_order kw)) = true ->
             new (PoolingOp i o pool_type kw) = Err NotImplementedError))
    /\ new (PoolingOp i o "avg" PoolingOp_defaults)
       = Ok (mkOp (mkBaseOp ["weight"] None false None)
                  (PoolingOp_body (AvgPool3d 2 2)))
    /\ new (PoolingOp i o "max" PoolingOp_defaults)
       = Ok (mkOp (mkBaseOp ["weight"] None false None)
                  (PoolingOp_body (MaxPool3d 2 2))).
Proof.
  intros i o. split; [|split; reflexivity].
  intros pt Havg Hmax.
  apply String.eqb_neq in Havg, Hmax.
  repeat split.
  - simpl. unfold PoolingOp_init. simpl. now rewrite Havg, Hmax.
  - intros kw. simpl. unfold PoolingOp_init.
    destruct (BaseOp_init i o 0%Q (pk_ops_order kw)); simpl; [|reflexivity].
    now rewrite Havg, Hmax.
  - intros kw. simpl. unfold PoolingOp_init.
    destruct (BaseOp_init i o 0%Q (pk_ops_order kw)); simpl; [|discriminate].
    now rewrite Havg, Hmax.
Qed.

Lemma pooling_type_checked_witness :
  "median" <> "avg" /\ "median" <> "max"
  /\ new (PoolingOp 16 16 "median" PoolingOp_defaults) = Err NotImplementedError.
Proof.
  split; [now apply String.eqb_neq|]. split; [now apply String.eqb_neq|].
  refine (proj1 (proj1 (pooling_type_checked 16 16) "median" _ _));
    now apply String.eqb_neq.
Defined.

(** ** The stage pipeline *)

Section Pipeline.
Context {T : Type} `{Torch T}.

Lemma stages_app (op : Op) (pre post : list string) (x : T) :
  stages op (pre ++ post)%list x = (x' <- stages op pre x ;; stages op post x').
Proof.
  revert x. induction pre as [|tok pre IH]; intros x; simpl.
  - reflexivity.
  - destruct (stage op tok x) as [x1|e]; simpl; [apply IH | reflexivity].
Qed.

Lemma stage_unrecognized (op : Op) (tok : string) (x : T) :
  recognized tok = false ->
  stage op tok x = Err (Warning ("Unrecognized op: " ++ tok)).
Proof.
  unfold recognized, stage. intros Hr.
  apply orb_false_elim in Hr as [Hr Hact].
  apply orb_false_elim in Hr as [Hw Hn].
  now rewrite Hw, Hn, Hact.
Qed.
End Pipeline.

(** A list with an unrecognized token splits at the first one. *)
Lemma first_unrecognized (toks : list string) :
  (exists tok, In tok toks /\ recognized tok = false) ->
  exists pre tok post,
    toks = (pre ++ tok :: post)%list
    /\ forallb recognized pre = true /\ recognized tok = false.
Proof.
  induction toks as [|t rest IH]; intros [tok [Hin Hr]].
  - destruct Hin.
  - destruct (recognized t) eqn:Ht.
    + destruct Hin as [->|Hin]; [congruence|].
      destruct IH as (pre & tok' & post & -> & Hpre & Htok'); [eauto|].
      exists (t :: pre), tok', post. simpl. now rewrite Ht, Hpre.
    + exists [], t, rest. auto.
Qed.

(** C4. When the ops-order of a built operation contains a token other
    than weight, norm and act, apply never returns a tensor: it raises
    the Warning naming the first such token as soon as the stages before
    it have run (an exception of one of those stages comes first). *)
Theorem unrecognized_token_raises :
  forall (T : Type) (HT : Torch T) call op,
    new call = Ok op ->
    (exists tok, In tok (split "_" (call_ops_order call))
                 /\ recognized tok = false) ->
    exists pre tok post,
      split "_" (call_ops_order call) = (pre ++ tok :: post)%list
      /\ forallb recognized pre = true
      /\ recognized tok = false
      /\ forall x : T,
           forward op x =
             match stages op pre x with
             | Ok _ => Err (Warning ("Unrecognized op: " ++ tok))
             | Err e => Err e
             end
           /\ is_ok (forward op x) = false.
Proof.
  intros T HT call op Hnew Hex.
  destruct (first_unrecognized _ Hex) as (pre & tok & post & Heq & Hpre & Htok).
  exists pre, tok, post. repeat split; try assumption.
  - unfold forward. rewrite (new_ops_list _ _ Hnew), Heq, stages_app.
    destruct (stages op pre x) as [x'|e]; simpl; [|reflexivity].
    now rewrite (stage_unrecognized op tok x' Htok).
  - unfold forward. rewrite (new_ops_list _ _ Hnew), Heq, stages_app.
    destruct (stages op pre x) as [x'|e]; simpl; [|reflexivity].
    now rewrite (stage_unrecognized op tok x' Htok).
Qed.

Lemma unrecognized_token_raises_witness :
  exists op,
    new (ConvOps 32 32 (mkConvKw 3 1 1 false false 0%Q "weight_foo")) = Ok op
    /\ (exists tok, In tok (split "_" "weight_foo") /\ recognized tok = false)
    /\ forall x : Sym.term, is_ok (forward op x) = false.
Proof.
  eexists. split; [reflexivity|].
  assert (Hex : exists tok, In tok (split "_" "weight_foo")
                            /\ recognized tok = false).
  { exists "foo". split; [right; left; reflexivity | reflexivity]. }
  split; [exact Hex|].
  intros x.
  destruct (unrecognized_token_raises Sym.term Sym.torch
              (ConvOps 32 32 (mkConvKw 3 1 1 false false 0%Q "weight_foo"))
              _ eq_refl Hex) as (pre & tok & post & _ & _ & _ & Hfw).
  apply Hfw.
Defined.

Example weight_foo_raises :
  forall x : Sym.term,
    (op <- new (IdentityOp 32 32 "weight_foo") ;; forward op x)
    = Err (Warning "Unrecognized op: foo").
Proof. reflexivity. Qed.

(** C2 as amended. With ops-order 'weight_norm_act', apply runs dropout
    on x (only when dropout_rate > 0), then the weight-transform, then
    group normalization on the weight-transform's output, except in a
    SEConvOp of stride below 2 where this stage is skipped, then ReLU. *)
Theorem weight_norm_act_order :
  forall call op,
    new call = Ok op ->
    call_ops_order call = "weight_norm_act" ->
    forall (T : Type) (HT : Torch T) (x : T),
      forward op x =
        (x1 <- dropout_if_positive (call_dropout_rate call) x ;;
         x2 <- weight_call op x1 ;;
         x3 <- (if norm_disabled call then Ok x2
                else group_norm_call "norm"
                       (mkGroupNorm (group_count (call_out_channels call))
                                    (call_out_channels call)) x2) ;;
         relu_call x3).
Proof.
  intros call op Hnew Horder T HT x.
  pose proof (new_ops_list _ _ Hnew) as Hl.
  pose proof (new_norm _ _ Hnew) as Hn.
  pose proof (new_activation _ _ Hnew) as Ha.
  pose proof (new_dropout _ _ Hnew) as Hd.
  rewrite Horder in Hl, Hn, Ha. simpl in Hl, Hn, Ha.
  unfold forward. rewrite Hl. simpl. unfold stage. simpl.
  rewrite Hn, Ha, Hd. unfold dropout_if_positive.
  destruct (negb (Qle_bool (call_dropout_rate call) 0)); simpl;
    [destruct (dropout3d_call (call_dropout_rate call) x) as [x1|e]; simpl;
     [|reflexivity] | ];
    (match goal with
     | |- context [weight_call op ?y] =>
         destruct (weight_call op y) as [x2|e]; simpl; [|reflexivity]
     end);
    destruct (norm_disabled call); simpl;
    try (match goal with
         | |- context [group_norm_call ?p ?g ?y] =>
             destruct (group_norm_call p g y) as [x3|e]; simpl; [|reflexivity]
         end);
    now destruct (relu_call _).
Qed.

Lemma weight_norm_act_order_witness :
  exists op,
    new (ConvOps 32 32 (kw_dropout_rate (1 # 2) ConvOps_defaults)) = Ok op
    /\ forall x : Sym.term,
         forward op x =
           Ok (Sym.ReluT
                 (Sym.GroupNormT "norm" (mkGroupNorm 2 32)
                    (Sym.ConvT "conv" (Conv3d (mkConv 32 32 3 1 1 1 1))
                       (Sym.Dropout3dT (1 # 2) x)))).
Proof.
  eexists. split; [reflexivity|]. intros x.
  apply (weight_norm_act_order
           (ConvOps 32 32 (kw_dropout_rate (1 # 2) ConvOps_defaults))
           _ eq_refl eq_refl Sym.term Sym.torch x).
Defined.

(** The claim as first worded fails on a SEConvOp of stride 1 given the
    ops-order 'weight_norm_act': no group normalization is applied. *)
Lemma weight_norm_act_order_counterexample :
  exists op,
    new (SEConvOp 32 32 (se_kw_ops_order "weight_norm_act" SEConvOp_defaults))
    = Ok op
    /\ ops_list (base op) = ["weight"; "norm"; "act"]
    /\ norm (base op) = None
    /\ exists gate,
         forward op (Sym.Input "x" [1; 32; 8; 8; 8])
         = Ok (Sym.ReluT (Sym.MulT (Sym.Input "x" [1; 32; 8; 8; 8]) gate))
         /\ Sym.has_group_norm
              (Sym.ReluT (Sym.MulT (Sym.Input "x" [1; 32; 8; 8; 8]) gate))
            = false.
Proof.
  eexists. split; [reflexivity|]. split; [reflexivity|].
  split; [reflexivity|]. eexists. split; reflexivity.
Qed.

(** ** The identity entry *)

Lemma IdentityOp_init_Ok c order :
  1 <= c ->
  new (IdentityOp c c order)
  = Ok (mkOp (mkBaseOp (split "_" order)
                (if mem "norm" (split "_" order)
                 then Some (mkGroupNorm (group_count c) c) else None)
                (mem "act" (split "_" order)) None)
             IdentityOp_body).
Proof.
  intros Hc. simpl. unfold IdentityOp_init.
  destruct (BaseOp_init_Ok c c 0%Q order Hc eq_refl) as [b Hb].
  rewrite Hb. simpl.
  apply BaseOp_init_fields in Hb as (Hl & Hn & Ha & Hd).
  destruct b as [l nm a dr]. simpl in *. now subst.
Qed.

(** C10. The 'identity' entry builds an IdentityOp with the ops-order
    'weight_norm_act': its weight stage returns its input, and apply
    returns ReLU(GroupNorm(x)), which is not the input itself. *)
Theorem identity_entry_normalizes :
  forall f, dict_get OPS "identity" = Some f ->
  forall c stride, 1 <= c ->
  exists op,
    new (f c stride) = Ok op
    /\ ops_list (base op) = ["weight"; "norm"; "act"]
    /\ (forall (T : Type) (HT : Torch T) (x : T),
          weight_call op x = Ok x
          /\ forward op x =
               (y <- group_norm_call "norm" (mkGroupNorm (group_count c) c) x ;;
                relu_call y))
    /\ (forall x : Sym.term,
          forward op x =
            Ok (Sym.ReluT
                  (Sym.GroupNormT "norm" (mkGroupNorm (group_count c) c) x))
          /\ forward op x <> Ok x).
Proof.
  intros f Hf c stride Hc.
  vm_compute in Hf. injection Hf as <-.
  eexists. split; [apply (IdentityOp_init_Ok c _ Hc)|].
  split; [reflexivity|]. split.
  - intros T HT x. split; [reflexivity|].
    unfold forward. simpl. unfold stage. simpl.
    destruct (group_norm_call "norm" (mkGroupNorm (group_count c) c) x);
      simpl; [|reflexivity].
    now destruct (relu_call a).
  - intros x. split; [reflexivity|].
    unfold forward. simpl. intros Heq. injection Heq as Heq.
    apply (f_equal Sym.calls) in Heq. simpl in Heq. lia.
Qed.

Lemma identity_entry_normalizes_witness :
  exists f, dict_get OPS "identity" = Some f
    /\ 1 <= 32
    /\ exists op,
         new (f 32 1) = Ok op
         /\ forall x : Sym.term,
              forward op x
              = Ok (Sym.ReluT (Sym.GroupNormT "norm" (mkGroupNorm 2 32) x)).
Proof.
  eexists. split; [reflexivity|]. split; [lia|].
  destruct (identity_entry_normalizes _ eq_refl 32 1 ltac:(lia))
    as (op & Hnew & _ & _ & Hsym).
  exists op. split; [exact Hnew|]. intros x. apply Hsym.
Defined.

(** ** Shapes *)

Ltac Zify.zify_post_hook ::= Z.div_mod_to_equations.

(** Settle the integer tests of a goal by arithmetic. *)
Ltac settle_tests :=
  repeat match goal with
    | |- context [Z.leb ?a ?b] =>
        first [ replace (Z.leb a b) with true
                  by (symmetry; apply Z.leb_le; lia)
              | replace (Z.leb a b) with false
                  by (symmetry; apply Z.leb_gt; lia) ]
    | |- context [Z.eqb ?a ?b] =>
        first [ replace (Z.eqb a b) with true
                  by (symmetry; apply Z.eqb_eq; lia)
              | replace (Z.eqb a b) with false
                  by (symmetry; apply Z.eqb_neq; lia) ]
    end.

Lemma SEConvOp_init_low_stride i o kw :
  sk_stride kw < 2 -> 1 <= o -> Qle_bool (sk_dropout_rate kw) 1 = true ->
  new (SEConvOp i o kw)
  = Ok (mkOp (mkBaseOp (split "_" (sk_ops_order kw)) None
                (mem "act" (split "_" (sk_ops_order kw)))
                (if negb (Qle_bool (sk_dropout_rate kw) 0)
                 then Some (sk_dropout_rate kw) else None))
             (SEConvOp_body (sk_stride kw) 1
                [Linear i 1; ReLU; Linear 1 o; Sigmoid] None)).
Proof.
  intros Hs Ho Hr. simpl. unfold SEConvOp_init.
  destruct (BaseOp_init_Ok i o (sk_dropout_rate kw) (sk_ops_order kw) Ho Hr)
    as [b Hb].
  rewrite Hb. simpl.
  apply BaseOp_init_fields in Hb as (Hl & Hn & Ha & Hd).
  replace (2 <=? sk_stride kw) with false by (symmetry; apply Z.leb_gt; lia).
  now rewrite Hl, Ha, Hd.
Qed.

(** The gate of a channel-preserving SEConvOp has one entry per sample
    and channel. *)
Lemma se_gate_shape n c d h w :
  0 <= n -> 0 <= c -> 1 <= d -> 1 <= h -> 1 <= w ->
  se_gate 1 [Linear c 1; ReLU; Linear 1 c; Sigmoid] [n; c; d; h; w]
  = Ok [n; c; 1; 1; 1].
Proof.
  intros Hn Hc Hd Hh Hw.
  cbv [se_gate size Shape.torch adaptive_avg_pool3d_call
       Shape.adaptive_avg_pool3d_shape Shape.all_pos forallb].
  settle_tests.
  cbv [andb bind view Shape.view_shape forallb Shape.prod fold_right].
  settle_tests.
  cbv [andb sequential_call bind linear_call relu_call sigmoid_call
       Shape.linear_shape].
  settle_tests. cbv [bind]. settle_tests. reflexivity.
Qed.

Lemma mul_gate_shape n c d h w :
  Shape.mul_shape [n; c; d; h; w] [n; c; 1; 1; 1] = Ok [n; c; d; h; w].
Proof.
  cbv [Shape.mul_shape rev app Shape.broadcast_rev bind].
  rewrite !Z.eqb_refl.
  destruct (w =? 1), (h =? 1), (d =? 1); reflexivity.
Qed.

(** Every recognized stage of a channel-preserving SEConvOp of stride
    below 2 keeps the shape. *)
Lemma se_stage_shape toks act drop stride c n d h w tok :
  stride < 2 -> 1 <= n -> 1 <= c -> 1 <= d -> 1 <= h -> 1 <= w ->
  recognized tok = true ->
  stage (mkOp (mkBaseOp toks None act drop)
              (SEConvOp_body stride 1
                 [Linear c 1; ReLU; Linear 1 c; Sigmoid] None))
        tok [n; c; d; h; w]
  = Ok [n; c; d; h; w].
Proof.
  intros Hs Hn Hc Hd Hh Hw Hr. unfold stage, recognized in *.
  destruct (String.eqb tok "weight") eqn:Eweight.
  - assert (Hdrop : match drop with
                    | Some p => dropout3d_call p [n; c; d; h; w]
                    | None => Ok [n; c; d; h; w]
                    end = Ok [n; c; d; h; w]) by now destruct drop.
    cbv [base dropout]. rewrite Hdrop. cbv [bind weight_call body].
    rewrite se_gate_shape by lia.
    cbv [mul Shape.torch]. rewrite mul_gate_shape.
    replace (2 <=? stride) with false by (symmetry; apply Z.leb_gt; lia).
    reflexivity.
  - destruct (String.eqb tok "norm") eqn:Enorm; [reflexivity|].
    destruct (String.eqb tok "act") eqn:Eact; [|discriminate].
    simpl. now destruct act.
Qed.

(** C3. A SEConvOp built with stride 1 (any stride below 2) for channel
    count c has no normalization, whatever its ops-order, and applied to
    a 5-D input with c channels it returns a tensor of the input's shape. *)
Theorem se_conv_stride1_keeps_shape :
  forall c kw n d h w,
    sk_stride kw < 2 ->
    1 <= c -> 1 <= n -> 1 <= d -> 1 <= h -> 1 <= w ->
    forallb recognized (split "_" (sk_ops_order kw)) = true ->
    Qle_bool (sk_dropout_rate kw) 1 = true ->
    exists op,
      new (SEConvOp c c kw) = Ok op
      /\ norm (base op) = None
      /\ forward op [n; c; d; h; w] = Ok [n; c; d; h; w].
Proof.
  intros c kw n d h w Hs Hc Hn Hd Hh Hw Htoks Hrate.
  eexists. split; [apply SEConvOp_init_low_stride; assumption|].
  split; [reflexivity|].
  unfold forward. cbv [base ops_list].
  set (op := mkOp _ _).
  assert (Hall : forall toks, forallb recognized toks = true ->
                   stages op toks [n; c; d; h; w] = Ok [n; c; d; h; w]).
  { induction toks as [|tok rest IH]; simpl; intros Hrec; [reflexivity|].
    apply andb_prop in Hrec as [Htok Hrest].
    unfold op at 1. rewrite se_stage_shape by assumption.
    simpl. now apply IH. }
  now apply Hall.
Qed.

Lemma se_conv_stride1_keeps_shape_witness :
  exists op,
    new (SEConvOp 32 32 (se_kw_ops_order "weight_norm_act" SEConvOp_defaults))
    = Ok op
    /\ norm (base op) = None
    /\ forward op [2; 32; 8; 6; 4] = Ok [2; 32; 8; 6; 4].
Proof.
  apply (se_conv_stride1_keeps_shape 32
           (se_kw_ops_order "weight_norm_act" SEConvOp_defaults) 2 8 6 4);
    solve [reflexivity | simpl; lia].
Defined.

(** With different channel counts the gate has out_channels entries per
    sample and cannot be viewed as one per input channel. *)
Example se_conv_channel_mismatch_raises :
  Shape.apply (SEConvOp 4 8 SEConvOp_defaults) [1; 4; 2; 2; 2]
  = Err RuntimeError.
Proof. reflexivity. Qed.

(** ** Shapes of the registry's operations *)

Lemma BaseOp_init_closed i o rate order :
  1 <= o -> Qle_bool rate 1 = true ->
  BaseOp_init i o rate order
  = Ok (mkBaseOp (split "_" order)
          (if mem "norm" (split "_" order)
           then Some (mkGroupNorm (group_count o) o) else None)
          (mem "act" (split "_" order))
          (if negb (Qle_bool rate 0) then Some rate else None)).
Proof.
  intros Ho Hr. destruct (BaseOp_init_Ok i o rate order Ho Hr) as [b Hb].
  rewrite Hb. apply BaseOp_init_fields in Hb as (Hl & Hn & Ha & Hd).
  destruct b; simpl in *. now subst.
Qed.

Lemma group_samples n c :
  1 <= n -> 1 <= c -> 1 <= n * c / group_count c.
Proof.
  intros Hn Hc. unfold group_count.
  destruct (c mod 16 =? 0) eqn:Hm.
  - apply Z.eqb_eq in Hm.
    assert (Hq : c = 16 * (c / 16)) by (apply Z.div_exact; lia).
    set (q := c / 16) in *. assert (1 <= q) by lia.
    rewrite Hq. replace (n * (16 * q)) with (16 * n * q) by ring.
    rewrite Z.div_mul by lia. lia.
  - rewrite Z.div_1_r. nia.
Qed.

Lemma group_norm_shape_ok n c a b e :
  1 <= n -> 1 <= c -> 2 <= a -> 2 <= b -> 2 <= e ->
  Shape.group_norm_shape (mkGroupNorm (group_count c) c) [n; c; a; b; e]
  = Ok [n; c; a; b; e].
Proof.
  intros Hn Hc Ha Hb He. unfold Shape.group_norm_shape.
  cbv [num_channels num_groups]. rewrite Z.eqb_refl. simpl negb. cbv iota.
  pose proof (group_samples n c Hn Hc) as Hg.
  replace (n * c / group_count c * Shape.prod [a; b; e] =? 1) with false;
    [reflexivity|].
  symmetry. apply Z.eqb_neq. cbv [Shape.prod fold_right]. nia.
Qed.

Lemma shape5_eq (n c a b e a' b' e' : Z) :
  a = a' -> b = b' -> e = e' ->
  @Ok Shape.shape [n; c; a; b; e] = Ok [n; c; a'; b'; e'].
Proof. now intros -> -> ->. Qed.

(** Run an operation of the registry on a shape. *)
Ltac crunch :=
  repeat (progress (
    cbv [Shape.apply new ConvOps_init SEConvOp_init PoolingOp_init
         IdentityOp_init IdentityOp_default_order
         kw_stride kw_dilation kw_use_transpose kw_use_depthwise
         se_kw_stride se_kw_use_transpose
         ConvOps_defaults SEConvOp_defaults PoolingOp_defaults
         ck_kernel_size ck_stride ck_dilation ck_use_transpose
         ck_use_depthwise ck_dropout_rate ck_ops_order
         sk_kernel_size sk_stride sk_dilation sk_use_transpose
         sk_dropout_rate sk_ops_order
         pk_kernel_size pk_stride pk_ops_order
         bind new_Conv3d new_ConvTranspose3d check_conv
         conv_groups conv_in conv_out conv_kernel conv_stride conv_padding
         conv_dilation
         split mem existsb orb andb negb String.eqb Ascii.eqb Bool.eqb
         Qle_bool Qnum Qden
         forward base ops_list norm activation dropout body stages stage
         weight_call attr
         conv_call relu_call group_norm_call pool_call mul Shape.torch
         Shape.conv_shape Shape.pool_shape Shape.conv_args_ok Shape.all_pos
         Shape.conv_out_dim Shape.conv_transpose_out_dim Shape.pool_out_dim
         forallb map
         spatial_out NormOps DownOps UpOps];
    rewrite ?Z.mod_1_r, ?Z.mod_same, ?se_gate_shape, ?mul_gate_shape,
            ?group_norm_shape_ok, ?BaseOp_init_closed
      by (lia || reflexivity);
    settle_tests)).

Lemma registry_shapes name f c stride n d h w :
  dict_get OPS name = Some f ->
  1 <= c -> 1 <= n -> 5 <= d -> 5 <= h -> 5 <= w ->
  Shape.apply (f c stride) [n; c; d; h; w]
  = Ok [n; c; spatial_out name d; spatial_out name h; spatial_out name w].
Proof.
  intros Hget Hc Hn Hd Hh Hw.
  registry_cases Hget; crunch; apply shape5_eq; lia.
Qed.


Lemma odd_half d : Z.odd d = true -> (d - 3) / 2 + 1 = d / 2.
Proof.
  intros Hodd. rewrite Z.odd_spec in Hodd. destruct Hodd as [k ->]. lia.
Qed.

(** C1 as amended. Whatever stride its factory is given, every entry of
    the registry, built for c >= 1 channels and applied to a 5-D input
    of c channels whose spatial sizes are at least 5, returns a 5-D
    tensor with the same batch size and c channels; its spatial shape is
    the input's for the entries of NormOps, and has each size
    floor-divided by 2 for avg_pool and max_pool, and for every entry of
    DownOps when the sizes are odd. *)
Theorem registry_shape_contract :
  forall name f c stride n d h w,
    dict_get OPS name = Some f ->
    1 <= c -> 1 <= n -> 5 <= d -> 5 <= h -> 5 <= w ->
    (exists d' h' w',
        Shape.apply (f c stride) [n; c; d; h; w] = Ok [n; c; d'; h'; w'])
    /\ (In name NormOps ->
        Shape.apply (f c stride) [n; c; d; h; w] = Ok [n; c; d; h; w])
    /\ (name = "avg_pool" \/ name = "max_pool" ->
        Shape.apply (f c stride) [n; c; d; h; w]
        = Ok [n; c; d / 2; h / 2; w / 2])
    /\ (In name DownOps ->
        Z.odd d = true -> Z.odd h = true -> Z.odd w = true ->
        Shape.apply (f c stride) [n; c; d; h; w]
        = Ok [n; c; d / 2; h / 2; w / 2]).
Proof.
  intros name f c stride n d h w Hget Hc Hn Hd Hh Hw.
  rewrite (registry_shapes name f c stride n d h w) by assumption.
  split; [eauto|]. split; [|split].
  - intros Hin. apply mem_In in Hin. unfold spatial_out.
    now rewrite Hin.
  - intros [-> | ->]; reflexivity.
  - intros Hin Hod Hoh How. simpl in Hin.
    repeat (destruct Hin as [<- | Hin];
            [cbv [spatial_out mem existsb NormOps DownOps String.eqb
                  Ascii.eqb Bool.eqb orb];
             rewrite ?odd_half by assumption; reflexivity|]).
    destruct Hin.
Qed.

Lemma registry_shape_contract_witness :
  exists f,
    dict_get OPS "max_pool" = Some f
    /\ Shape.apply (f 16 1) [2; 16; 9; 8; 7] = Ok [2; 16; 4; 4; 3].
Proof.
  eexists. split; [reflexivity|].
  refine (proj1 (proj2 (proj2
    (registry_shape_contract "max_pool" _ 16 1 2 9 8 7 eq_refl _ _ _ _ _)))
    (or_intror eq_refl)); lia.
Defined.

(** The claim as first worded fails: a pooling entry halves the sizes
    whatever stride the factory got, a convolutional down-op takes 8 to 3
    and an up-op takes 4 to 9. *)
Lemma registry_shape_contract_counterexample :
  (exists f, dict_get OPS "avg_pool" = Some f
     /\ Shape.apply (f 16 4) [1; 16; 8; 8; 8] = Ok [1; 16; 4; 4; 4]
     /\ claimed_spatial "avg_pool" 4 8 = 2)
  /\ (exists f, dict_get OPS "down_conv" = Some f
     /\ Shape.apply (f 16 2) [1; 16; 8; 8; 8] = Ok [1; 16; 3; 3; 3]
     /\ claimed_spatial "down_conv" 2 8 = 4)
  /\ (exists f, dict_get OPS "up_conv" = Some f
     /\ Shape.apply (f 16 2) [1; 16; 4; 4; 4] = Ok [1; 16; 9; 9; 9]
     /\ claimed_spatial "up_conv" 2 4 = 8).
Proof.
  repeat split; eexists; (split; [reflexivity|]); split; reflexivity.
Qed.

(** ** Squeeze and excitation *)


Section Gate.
Context {T : Type} `{Torch T}.


End Gate.





(** * Further properties of the catalogue *)

(** ** Looking names up *)

Lemma dict_get_keys {V : Type} (items : list (string * V)) name :
  dict_get items name <> None <-> In name (keys items).
Proof.
  induction items as [|[k v] rest IH]; simpl.
  - split; [congruence | contradiction].
  - destruct (dict_get rest name) as [v'|] eqn:Hrest.
    + split; [|congruence]. intros _. right. apply IH. congruence.
    + destruct (String.eqb k name) eqn:Hk.
      * apply String.eqb_eq in Hk. split; [now left | congruence].
      * apply String.eqb_neq in Hk. split; [congruence|].
        intros [Heq | Hin]; [contradiction|].
        apply IH in Hin. contradiction.
Qed.

(** X1. A name has a factory in OPS exactly when it is listed in
    NormOps, DownOps or UpOps; any other name has none (the lookup
    fails). *)
Theorem registry_lookup :
  forall name,
    (dict_get OPS name <> None
     <-> In name NormOps \/ In name DownOps \/ In name UpOps)
    /\ (~ In name (NormOps ++ DownOps ++ UpOps) -> dict_get OPS name = None).
Proof.
  intros name.
  assert (Hiff : dict_get OPS name <> None
                 <-> In name (NormOps ++ DownOps ++ UpOps)).
  { rewrite dict_get_keys. split.
    - apply (inclb_incl (keys OPS) (NormOps ++ DownOps ++ UpOps)).
      vm_compute. reflexivity.
    - apply (inclb_incl (NormOps ++ DownOps ++ UpOps) (keys OPS)).
      vm_compute. reflexivity. }
  split.
  - rewrite Hiff, !in_app_iff. tauto.
  - intros Hnot. destruct (dict_get OPS name) eqn:Hget; [|reflexivity].
    exfalso. apply Hnot, Hiff. congruence.
Qed.

Lemma registry_lookup_witness :
  ~ In "sep_conv" (NormOps ++ DownOps ++ UpOps)
  /\ dict_get OPS "sep_conv" = None.
Proof.
  assert (Hnot : ~ In "sep_conv" (NormOps ++ DownOps ++ UpOps)).
  { apply mem_false. reflexivity. }
  split; [exact Hnot|].
  exact (proj2 (registry_lookup "sep_conv") Hnot).
Defined.

(** ** What the registry builds *)

(** X2. For a channel count c >= 1 every factory of the registry
    builds its operation (no constructor raises), whatever the stride
    argument, and the operation has no dropout. *)
Theorem registry_builds :
  forall name f c stride,
    dict_get OPS name = Some f ->
    1 <= c ->
    exists op,
      new (f c stride) = Ok op
      /\ dropout (base op) = None.
Proof.
  intros name f c stride Hget Hc.
  registry_cases Hget;
    cbv [new ConvOps_init SEConvOp_init PoolingOp_init IdentityOp_init
         IdentityOp_default_order
         kw_stride kw_dilation kw_use_transpose kw_use_depthwise
         se_kw_stride se_kw_use_transpose
         ConvOps_defaults SEConvOp_defaults PoolingOp_defaults
         ck_kernel_size ck_stride ck_dilation ck_use_transpose
         ck_use_depthwise ck_dropout_rate ck_ops_order
         sk_kernel_size sk_stride sk_dilation sk_use_transpose
         sk_dropout_rate sk_ops_order
         pk_kernel_size pk_stride pk_ops_order];
    rewrite BaseOp_init_closed by (lia || reflexivity);
    cbv [bind new_Conv3d new_ConvTranspose3d check_conv
         conv_groups conv_in conv_out String.eqb Ascii.eqb Bool.eqb];
    rewrite ?Z.mod_1_r, ?Z.mod_same by lia;
    settle_tests; cbv [negb bind];
    eexists; split; reflexivity.
Qed.

Lemma registry_builds_witness :
  exists f op,
    dict_get OPS "up_dep_conv" = Some f
    /\ new (f 16 7) = Ok op
    /\ dropout (base op) = None.
Proof.
  destruct (registry_builds "up_dep_conv" _ 16 7 eq_refl ltac:(lia))
    as (op & Hnew & Hdrop).
  eexists _, op. split; [reflexivity|]. split; assumption.
Defined.

(** Case analysis on the result of each library call of a goal. *)
Ltac split_calls :=
  repeat match goal with
    | |- context [match ?e with Ok _ => _ | Err _ => _ end] =>
        destruct e; simpl
    end.

(** X3. What apply computes for each entry of the registry, on any
    tensor library: the weight-transform, then group normalization
    except for se_conv, avg_pool and max_pool, then ReLU except for the
    three squeeze-and-excitation entries and the two pooling entries. *)
Theorem registry_pipelines :
  forall name f c stride op,
    dict_get OPS name = Some f ->
    new (f c stride) = Ok op ->
    forall (T : Type) (HT : Torch T) (x : T),
      forward op x =
        (x1 <- weight_call op x ;;
         x2 <- (if mem name ["se_conv"; "avg_pool"; "max_pool"] then Ok x1
                else group_norm_call "norm" (mkGroupNorm (group_count c) c)
                                     x1) ;;
         if mem name ["se_conv"; "down_se_conv"; "up_se_conv";
                      "avg_pool"; "max_pool"]
         then Ok x2 else relu_call x2).
Proof.
  intros name f c stride op Hget Hnew T HT x.
  registry_cases Hget;
    pose proof (new_ops_list _ _ Hnew) as Hl;
    pose proof (new_norm _ _ Hnew) as Hn;
    pose proof (new_activation _ _ Hnew) as Ha;
    pose proof (new_dropout _ _ Hnew) as Hd;
    simpl in Hl, Hn, Ha, Hd;
    unfold forward; rewrite Hl; simpl; unfold stage; simpl;
    rewrite ?Hn, ?Ha, ?Hd; cbv [bind];
    split_calls; reflexivity.
Qed.

Lemma registry_pipelines_witness :
  exists f op,
    dict_get OPS "down_se_conv" = Some f
    /\ new (f 32 2) = Ok op
    /\ forward op (Sym.Input "x" [1; 32; 8; 8; 8])
       = (x1 <- weight_call op (Sym.Input "x" [1; 32; 8; 8; 8]) ;;
          group_norm_call "norm" (mkGroupNorm 2 32) x1).
Proof.
  eexists _, _. split; [reflexivity|]. split; [reflexivity|].
  apply (registry_pipelines "down_se_conv" _ 32 2 _ eq_refl eq_refl
           Sym.term Sym.torch (Sym.Input "x" [1; 32; 8; 8; 8])).
Defined.

(** X4. The name lists agree with what the entries ask for: an entry's
    stride is 1 when its name is in NormOps and 2 otherwise (the
    identity entry has none), and it asks for a transposed convolution
    exactly when its name is in UpOps. *)
Theorem registry_names_match_configuration :
  forall name f c stride,
    dict_get OPS name = Some f ->
    call_use_transpose (f c stride) = mem name UpOps
    /\ match call_stride (f c stride) with
       | Some s => s = (if mem name NormOps then 1 else 2)
       | None => name = "identity"
       end.
Proof.
  intros name f c stride Hget.
  registry_cases Hget; split; reflexivity.
Qed.

Lemma registry_names_match_configuration_witness :
  exists f,
    dict_get OPS "up_conv" = Some f
    /\ call_use_transpose (f 8 1) = true
    /\ call_stride (f 8 1) = Some 2.
Proof.
  eexists. split; [reflexivity|].
  destruct (registry_names_match_configuration "up_conv" _ 8 1 eq_refl)
    as [Ht Hs].
  split; [exact Ht | reflexivity].
Defined.

(** ** Ops-orders *)

Lemma only_weight_tokens (toks : list string) :
  Forall (fun tok => tok = "weight") toks ->
  mem "norm" toks = false /\ mem "act" toks = false.
Proof.
  induction 1 as [|tok rest Htok _ [IHn IHa]]; [split; reflexivity|].
  subst tok. unfold mem in *. simpl. split; assumption.
Qed.

Lemma identity_weight_stages {T : Type} `{Torch T} (b : BaseOp)
      (toks : list string) (x : T) :
  dropout b = None ->
  Forall (fun tok => tok = "weight") toks ->
  stages (mkOp b IdentityOp_body) toks x = Ok x.
Proof.
  intros Hdrop Hall. induction Hall as [|tok rest Htok _ IH]; [reflexivity|].
  subst tok. simpl. unfold stage. simpl. rewrite Hdrop. simpl. exact IH.
Qed.

(** X5. An IdentityOp whose ops-order names only weight stages is a
    true identity: it is built for any channel counts, and apply
    returns its input unchanged on any tensor library. *)
Theorem identity_weight_only_is_identity :
  forall i o order,
    Forall (fun tok => tok = "weight") (split "_" order) ->
    exists op,
      new (IdentityOp i o order) = Ok op
      /\ forall (T : Type) (HT : Torch T) (x : T), forward op x = Ok x.
Proof.
  intros i o order Hall.
  destruct (only_weight_tokens _ Hall) as [Hn Ha].
  exists (mkOp (mkBaseOp (split "_" order) None false None) IdentityOp_body).
  split.
  - simpl. unfold IdentityOp_init, BaseOp_init. now rewrite Hn, Ha.
  - intros T HT x. unfold forward. simpl.
    now apply identity_weight_stages.
Qed.

Lemma identity_weight_only_is_identity_witness :
  exists op,
    new (IdentityOp 3 5 "weight_weight") = Ok op
    /\ forward op (Sym.Input "x" [1; 3; 4; 4; 4])
       = Ok (Sym.Input "x" [1; 3; 4; 4; 4]).
Proof.
  destruct (identity_weight_only_is_identity 3 5 "weight_weight")
    as (op & Hnew & Hfw).
  { repeat constructor. }
  exists op. split; [exact Hnew | apply Hfw].
Defined.

Lemma split_trailing_separator (sep : ascii) (s : string) :
  exists piece pieces,
    split sep (s ++ String sep "") = (piece :: pieces ++ [""])%list.
Proof.
  induction s as [|ch s (piece & pieces & IH)]; simpl.
  - rewrite Ascii.eqb_refl. now exists "", [].
  - rewrite IH. destruct (Ascii.eqb ch sep).
    + now exists "", (piece :: pieces).
    + now exists (String ch piece), pieces.
Qed.

Lemma check_conv_accepts p :
  1 <= conv_groups p ->
  conv_in p mod conv_groups p = 0 -> conv_out p mod conv_groups p = 0 ->
  check_conv p = Ok p.
Proof.
  intros Hg Hi Ho. unfold check_conv. rewrite Hi, Ho.
  replace (conv_groups p <=? 0) with false
    by (symmetry; apply Z.leb_gt; lia).
  reflexivity.
Qed.

(** A well-formed constructor call builds its operation. *)
Lemma new_well_formed call :
  well_formed_call call -> exists op, new call = Ok op.
Proof.
  intros (Hi & Ho & Hr & Hkind).
  destruct call as [i o order | i o kw | i o kw | i o pt kw];
    simpl in Hi, Ho, Hr, Hkind; simpl.
  - unfold IdentityOp_init.
    destruct (BaseOp_init_Ok i o 0%Q order Ho eq_refl) as [b ->].
    simpl. eauto.
  - unfold SEConvOp_init.
    destruct (BaseOp_init_Ok i o _ (sk_ops_order kw) Ho Hr) as [b ->].
    simpl. unfold new_Conv3d, new_ConvTranspose3d.
    rewrite check_conv_accepts by (simpl; rewrite ?Z.mod_1_r; lia).
    simpl. destruct (2 <=? sk_stride kw), (sk_use_transpose kw); eauto.
  - unfold ConvOps_init.
    destruct (BaseOp_init_Ok i o _ (ck_ops_order kw) Ho Hr) as [b ->].
    simpl. unfold new_Conv3d, new_ConvTranspose3d.
    destruct (ck_use_transpose kw), (ck_use_depthwise kw);
      rewrite !check_conv_accepts
        by (simpl; rewrite ?Z.mod_1_r, ?Z.mod_same; lia);
      simpl; eauto.
  - unfold PoolingOp_init.
    destruct (BaseOp_init_Ok i o 0%Q (pk_ops_order kw) Ho eq_refl) as [b ->].
    simpl. destruct Hkind as [[-> | ->] _]; simpl; eauto.
Qed.

(** X6. A well-formed constructor call whose ops-order is empty, or
    starts or ends with an underscore, builds its operation with an
    empty stage token, and apply of that operation never returns a
    tensor. *)
Theorem empty_token_raises :
  forall call,
    well_formed_call call ->
    (call_ops_order call = ""
     \/ (exists s, call_ops_order call = "_" ++ s)
     \/ (exists s, call_ops_order call = s ++ "_")) ->
    exists op,
      new call = Ok op
      /\ In "" (ops_list (base op))
      /\ forall (T : Type) (HT : Torch T) (x : T),
           is_ok (forward op x) = false.
Proof.
  intros call Hwf Horder.
  destruct (new_well_formed call Hwf) as [op Hnew].
  exists op. split; [exact Hnew|].
  pose proof (new_ops_list _ _ Hnew) as Hl.
  assert (Hin : In "" (ops_list (base op))).
  { rewrite Hl. destruct Horder as [-> | [[s ->] | [s ->]]].
    - now left.
    - now left.
    - destruct (split_trailing_separator "_" s) as (piece & pieces & Hs).
      rewrite Hs. right. apply in_or_app. right. now left. }
  split; [exact Hin|]. intros T HT x.
  destruct (first_unrecognized (ops_list (base op)))
    as (pre & tok & post & Heq & _ & Htok); [now exists ""|].
  unfold forward. rewrite Heq, stages_app.
  destruct (stages op pre x) as [x'|e]; simpl; [|reflexivity].
  now rewrite (stage_unrecognized op tok x' Htok).
Qed.

Lemma empty_token_raises_witness :
  exists op,
    new (ConvOps 8 8 (mkConvKw 3 1 1 false false 0%Q "weight_")) = Ok op
    /\ In "" (ops_list (base op))
    /\ forall (T : Type) (HT : Torch T) (x : T),
         is_ok (forward op x) = false.
Proof.
  apply (empty_token_raises
           (ConvOps 8 8 (mkConvKw 3 1 1 false false 0%Q "weight_"))).
  - repeat split; simpl; lia.
  - right. right. now exists "weight".
Defined.

(** ** Arguments that are not used *)

(** X7. When its stride is below 2, a SEConvOp ignores kernel_size,
    dilation and use_transpose: two calls that agree on the other
    arguments build the same operation. *)
Theorem se_conv_low_stride_ignores_conv_arguments :
  forall i o kw kw',
    sk_stride kw < 2 ->
    sk_stride kw' = sk_stride kw ->
    sk_dropout_rate kw' = sk_dropout_rate kw ->
    sk_ops_order kw' = sk_ops_order kw ->
    new (SEConvOp i o kw') = new (SEConvOp i o kw).
Proof.
  intros i o kw kw' Hs Hs' Hr Ho. simpl. unfold SEConvOp_init.
  rewrite Hs', Hr, Ho.
  replace (2 <=? sk_stride kw) with false by (symmetry; apply Z.leb_gt; lia).
  reflexivity.
Qed.

Lemma se_conv_low_stride_ignores_conv_arguments_witness :
  new (SEConvOp 16 16 (mkSEKw 7 1 3 true 0%Q "weight_norm"))
  = new (SEConvOp 16 16 SEConvOp_defaults).
Proof.
  apply (se_conv_low_stride_ignores_conv_arguments 16 16 SEConvOp_defaults
           (mkSEKw 7 1 3 true 0%Q "weight_norm"));
    solve [reflexivity | simpl; lia].
Defined.

(** X8. Pooling does not look at channel counts: with the default
    keyword arguments a PoolingOp built for any in_channels and
    out_channels accepts a 5-D input with any number c >= 1 of channels
    (and batch size n >= 1) whose spatial sizes are at least 2, keeps
    batch size and channels, and floor-divides each spatial size by 2. *)
Theorem pooling_ignores_channels :
  forall i o pool_type n c d h w,
    pool_type = "avg" \/ pool_type = "max" ->
    1 <= n -> 1 <= c -> 2 <= d -> 2 <= h -> 2 <= w ->
    Shape.apply (PoolingOp i o pool_type PoolingOp_defaults) [n; c; d; h; w]
    = Ok [n; c; d / 2; h / 2; w / 2].
Proof.
  intros i o pt n c d h w Hpt Hn Hc Hd Hh Hw.
  destruct Hpt as [-> | ->];
    cbv [Shape.apply new PoolingOp_init PoolingOp_defaults pk_ops_order
         pk_kernel_size pk_stride BaseOp_init split mem existsb orb
         String.eqb Ascii.eqb Bool.eqb Qle_bool Qnum Qden negb bind
         forward base ops_list dropout stages stage weight_call body
         pool_call Shape.torch Shape.pool_shape Shape.all_pos forallb map
         Shape.pool_out_dim];
    settle_tests; cbv [andb]; apply shape5_eq; lia.
Qed.

Lemma pooling_ignores_channels_witness :
  Shape.apply (PoolingOp 16 32 "avg" PoolingOp_defaults) [2; 5; 8; 7; 2]
  = Ok [2; 5; 4; 3; 1].
Proof.
  apply (pooling_ignores_channels 16 32 "avg" 2 5 8 7 2);
    solve [now left | lia].
Defined.

(** ** Sizes through convolutions *)

Lemma up_shapes name f c stride n d h w :
  In name UpOps ->
  dict_get OPS name = Some f ->
  1 <= c -> 1 <= n -> 2 <= d -> 2 <= h -> 2 <= w ->
  Shape.apply (f c stride) [n; c; d; h; w]
  = Ok [n; c; 2 * d + 1; 2 * h + 1; 2 * w + 1].
Proof.
  intros Hin Hget Hc Hn Hd Hh Hw. simpl in Hin.
  repeat (destruct Hin as [<- | Hin];
          [vm_compute in Hget; injection Hget as <-;
           crunch; apply shape5_eq; lia|]).
  destruct Hin.
Qed.

Lemma down_sizes name d :
  In name DownOps -> 5 <= d ->
  2 <= spatial_out name d
  /\ (2 * spatial_out name d + 1 = d <-> Z.odd d = true).
Proof.
  intros Hin Hd. pose proof (Zmod_odd d) as Hodd. simpl in Hin.
  repeat (destruct Hin as [<- | Hin];
          [cbv [spatial_out mem existsb NormOps DownOps String.eqb
                Ascii.eqb Bool.eqb orb];
           destruct (Z.odd d); split; try split; intros; try lia;
           try discriminate; try reflexivity|]).
  destruct Hin.
Qed.

(** X9. A down entry followed by an up entry of the registry, both
    built for c channels, returns a 5-D tensor with the same batch size
    and channels, and each spatial size (at least 5) comes back to its
    value exactly when it is odd. *)
Theorem down_then_up_restores_odd_sizes :
  forall down up fd fu c s1 s2 n d h w,
    In down DownOps -> In up UpOps ->
    dict_get OPS down = Some fd -> dict_get OPS up = Some fu ->
    1 <= c -> 1 <= n -> 5 <= d -> 5 <= h -> 5 <= w ->
    exists d' h' w',
      (y <- Shape.apply (fd c s1) [n; c; d; h; w] ;; Shape.apply (fu c s2) y)
      = Ok [n; c; d'; h'; w']
      /\ (d' = d <-> Z.odd d = true)
      /\ (h' = h <-> Z.odd h = true)
      /\ (w' = w <-> Z.odd w = true).
Proof.
  intros down up fd fu c s1 s2 n d h w Hdown Hup Hfd Hfu Hc Hn Hd Hh Hw.
  destruct (down_sizes down d Hdown Hd) as [Hd2 Hdo].
  destruct (down_sizes down h Hdown Hh) as [Hh2 Hho].
  destruct (down_sizes down w Hdown Hw) as [Hw2 Hwo].
  rewrite (registry_shapes down fd c s1 n d h w) by assumption.
  cbv [bind].
  rewrite (up_shapes up fu c s2 n _ _ _ Hup Hfu) by assumption.
  eauto 10.
Qed.

Lemma down_then_up_restores_odd_sizes_witness :
  exists d' h' w',
    (y <- Shape.apply (PoolingOp 16 16 "max" PoolingOp_defaults)
            [1; 16; 9; 7; 8] ;;
     Shape.apply
       (ConvOps 16 16 (kw_stride 2 (kw_use_transpose true ConvOps_defaults)))
       y)
    = Ok [1; 16; d'; h'; w']
    /\ (d' = 9 <-> Z.odd 9 = true)
    /\ (h' = 7 <-> Z.odd 7 = true)
    /\ (w' = 8 <-> Z.odd 8 = true).
Proof.
  refine (down_then_up_restores_odd_sizes "max_pool" "up_conv"
            (fun c _ => PoolingOp c c "max" PoolingOp_defaults)
            (fun c _ => ConvOps c c
                          (kw_stride 2
                             (kw_use_transpose true ConvOps_defaults)))
            16 2 2 1 9 7 8 _ _ _ _ _ _ _ _ _);
    solve [reflexivity | lia | simpl; tauto].
Defined.

Lemma check_conv_Ok p q : check_conv p = Ok q -> q = p.
Proof.
  unfold check_conv.
  destruct (conv_groups p <=? 0); [discriminate|].
  destruct (negb (conv_in p mod conv_groups p =? 0)); [discriminate|].
  destruct (negb (conv_out p mod conv_groups p =? 0)); [discriminate|].
  now intros [= <-].
Qed.

(** X10. A ConvOps built with stride 1, neither transposed nor
    depthwise, for channel counts of at least 1, maps a 5-D input with
    in_channels channels, batch size at least 1 and spatial sizes at
    least 2 to out_channels channels, and keeps each spatial
    size when dilation * (kernel_size - 1) is even; when it is odd the
    size shrinks by one. *)
Theorem conv_stride1_padding :
  forall i o kw op n d h w,
    new (ConvOps i o kw) = Ok op ->
    1 <= i -> 1 <= o -> 1 <= n ->
    ck_stride kw = 1 ->
    ck_use_transpose kw = false -> ck_use_depthwise kw = false ->
    1 <= ck_kernel_size kw -> 1 <= ck_dilation kw ->
    2 <= d -> 2 <= h -> 2 <= w ->
    let m := ck_dilation kw * (ck_kernel_size kw - 1) in
    weight_call op [n; i; d; h; w]
    = Ok [n; o; d - m mod 2; h - m mod 2; w - m mod 2].
Proof.
  intros i o kw op n d h w Hnew Hi Ho Hn Hs Ht Hdw Hk Hdil Hd Hh Hw m.
  simpl in Hnew. unfold ConvOps_init in Hnew.
  apply bind_Ok in Hnew as [b [_ Hnew]].
  rewrite Ht, Hdw, Hs in Hnew. fold m in Hnew.
  apply bind_Ok in Hnew as [cm [Hcm Hnew]]. injection Hnew as <-.
  unfold new_Conv3d in Hcm.
  apply bind_Ok in Hcm as [q [Hq Hcm]]. injection Hcm as <-.
  apply check_conv_Ok in Hq. subst q.
  assert (Hm : 0 <= m) by (unfold m; nia).
  cbv [weight_call body attr bind conv_call Shape.torch Shape.conv_shape
       Shape.conv_args_ok conv_kernel conv_stride conv_padding conv_dilation
       conv_in conv_out Shape.all_pos forallb map Shape.conv_out_dim].
  change (ck_dilation kw * (ck_kernel_size kw - 1)) with m.
  clearbody m.
  settle_tests. cbv [andb]. apply shape5_eq; lia.
Qed.

Lemma conv_stride1_padding_witness :
  exists op,
    new (ConvOps 4 8 (mkConvKw 4 1 1 false false 0%Q "weight")) = Ok op
    /\ weight_call op [1; 4; 6; 6; 6] = Ok [1; 8; 5; 5; 5].
Proof.
  eexists. split; [reflexivity|].
  apply (conv_stride1_padding 4 8 (mkConvKw 4 1 1 false false 0%Q "weight")
           _ 1 6 6 6 eq_refl);
    solve [reflexivity | simpl; lia].
Defined.

(** X11. In a depthwise ConvOps the dilation argument only enters the
    padding: the depthwise convolution is built without it.  At stride
    1 (not transposed), for channel counts and a batch size of at least
    1, each spatial size d >= kernel_size becomes
    d + 2 * floor(dilation * (kernel_size - 1) / 2) - (kernel_size - 1),
    so the size is kept for dilation 1 and an odd kernel, and grows for a
    larger dilation. *)
Theorem depthwise_conv_ignores_dilation :
  forall i o kw op n d h w,
    new (ConvOps i o kw) = Ok op ->
    1 <= i -> 1 <= o -> 1 <= n ->
    ck_stride kw = 1 ->
    ck_use_transpose kw = false -> ck_use_depthwise kw = true ->
    1 <= ck_kernel_size kw -> 1 <= ck_dilation kw ->
    ck_kernel_size kw <= d -> ck_kernel_size kw <= h ->
    ck_kernel_size kw <= w ->
    let k := ck_kernel_size kw in
    let p := ck_dilation kw * (k - 1) / 2 in
    weight_call op [n; i; d; h; w]
    = Ok [n; o; d + 2 * p - (k - 1); h + 2 * p - (k - 1);
          w + 2 * p - (k - 1)].
Proof.
  intros i o kw op n d h w Hnew Hi Ho Hn Hs Ht Hdw Hk Hdil Hd Hh Hw k p.
  simpl in Hnew. unfold ConvOps_init in Hnew.
  apply bind_Ok in Hnew as [b [_ Hnew]].
  rewrite Ht, Hdw, Hs in Hnew.
  apply bind_Ok in Hnew as [dc [Hdc Hnew]].
  apply bind_Ok in Hnew as [pc [Hpc Hnew]]. injection Hnew as <-.
  unfold new_Conv3d in Hdc, Hpc.
  apply bind_Ok in Hdc as [q [Hq Hdc]]. injection Hdc as <-.
  apply check_conv_Ok in Hq. subst q.
  apply bind_Ok in Hpc as [q [Hq Hpc]]. injection Hpc as <-.
  apply check_conv_Ok in Hq. subst q.
  assert (Hp : ck_dilation kw * (k - 1) - 1 + 1 = ck_dilation kw * (k - 1))
    by lia.
  assert (Hp0 : 0 <= p).
  { unfold p. apply Z.div_pos; [unfold k; nia | lia]. }
  cbv [weight_call body attr bind conv_call Shape.torch Shape.conv_shape
       Shape.conv_args_ok conv_kernel conv_stride conv_padding conv_dilation
       conv_in conv_out Shape.all_pos forallb map Shape.conv_out_dim].
  fold k. rewrite Hp. fold p. unfold k in *. clearbody p.
  settle_tests. cbv [andb]. settle_tests. cbv [andb].
  apply shape5_eq; lia.
Qed.

Lemma depthwise_conv_ignores_dilation_witness :
  exists op,
    new (ConvOps 4 8 (mkConvKw 3 1 2 false true 0%Q "weight")) = Ok op
    /\ weight_call op [1; 4; 6; 6; 6] = Ok [1; 8; 8; 8; 8].
Proof.
  eexists. split; [reflexivity|].
  apply (depthwise_conv_ignores_dilation 4 8
           (mkConvKw 3 1 2 false true 0%Q "weight") _ 1 6 6 6 eq_refl);
    solve [reflexivity | simpl; lia].
Defined.

(** ** The weight-transform of a built operation *)

(** X12. Every module attribute the weight-transform reads was set by
    the constructor: on symbolic tensors, where no library call fails,
    the weight-transform of a built operation always returns, except
    that a SEConvOp raises ValueError on an input with fewer than two
    dimensions (its size cannot be unpacked into batch and channels). *)
Theorem weight_call_attributes_set :
  forall call op (x : Sym.term),
    new call = Ok op ->
    ((is_SEConvOp call = false \/ (2 <= List.length (size x))%nat) ->
     is_ok (weight_call op x) = true)
    /\ (is_SEConvOp call = true -> (List.length (size x) < 2)%nat ->
        weight_call op x = Err ValueError).
Proof.
  intros call op x Hnew.
  destruct call as [i o order | i o kw | i o kw | i o pt kw];
    simpl in Hnew.
  - unfold IdentityOp_init in Hnew.
    apply bind_Ok in Hnew as [b [_ Hnew]]. injection Hnew as <-.
    split; [reflexivity | discriminate].
  - assert (Hbody : exists conv,
               body op = SEConvOp_body (sk_stride kw) 1
                           [Linear i 1; ReLU; Linear 1 o; Sigmoid] conv
               /\ ((2 <=? sk_stride kw) = true -> conv <> None)).
    { unfold SEConvOp_init in Hnew.
      apply bind_Ok in Hnew as [b [_ Hnew]].
      destruct (2 <=? sk_stride kw).
      - destruct (sk_use_transpose kw);
          apply bind_Ok in Hnew as [cm [_ Hnew]]; injection Hnew as <-;
          eexists; (split; [reflexivity | discriminate]).
      - injection Hnew as <-. eexists. split; [reflexivity | discriminate]. }
    destruct Hbody as (conv & Hbody & Hconv).
    unfold weight_call. rewrite Hbody. unfold se_gate.
    destruct (size x) as [|bs [|ch rest]] eqn:Hsize; simpl.
    + split; [intros [Hno | Hlen]; [discriminate | lia] | reflexivity].
    + split; [intros [Hno | Hlen]; [discriminate | lia] | reflexivity].
    + split; [|intros _ Hlen; lia]. intros _.
      destruct (2 <=? sk_stride kw); [|reflexivity].
      destruct conv; [reflexivity | now destruct Hconv].
  - unfold ConvOps_init in Hnew.
    apply bind_Ok in Hnew as [b [_ Hnew]].
    split; [intros _ | discriminate].
    destruct (ck_use_transpose kw), (ck_use_depthwise kw);
      repeat (apply bind_Ok in Hnew as [? [_ Hnew]]);
      injection Hnew as <-; reflexivity.
  - unfold PoolingOp_init in Hnew.
    apply bind_Ok in Hnew as [b [_ Hnew]].
    split; [intros _ | discriminate].
    destruct (String.eqb pt "avg"); [now injection Hnew as <-|].
    destruct (String.eqb pt "max"); [now injection Hnew as <-|discriminate].
Qed.

Lemma weight_call_attributes_set_witness :
  exists op,
    new (SEConvOp 8 8 (se_kw_stride 2 SEConvOp_defaults)) = Ok op
    /\ is_ok (weight_call op (Sym.Input "x" [1; 8; 4; 4; 4])) = true
    /\ weight_call op (Sym.Input "v" [8]) = Err ValueError.
Proof.
  eexists. split; [reflexivity|]. split.
  - apply (proj1 (weight_call_attributes_set
                    (SEConvOp 8 8 (se_kw_stride 2 SEConvOp_defaults))
                    _ (Sym.Input "x" [1; 8; 4; 4; 4]) eq_refl)).
    right. simpl. lia.
  - apply (proj2 (weight_call_attributes_set
                    (SEConvOp 8 8 (se_kw_stride 2 SEConvOp_defaults))
                    _ (Sym.Input "v" [8]) eq_refl));
      [reflexivity | simpl; lia].
Defined.

(** ** Stages without the weight-transform *)

Lemma stages_without_weight {T : Type} `{Torch T} (op op' : Op)
      (toks : list string) (x : T) :
  norm (base op') = norm (base op) ->
  activation (base op') = activation (base op) ->
  ~ In "weight" toks ->
  stages op' toks x = stages op toks x.
Proof.
  intros Hn Ha. revert x.
  induction toks as [|tok rest IH]; intros x Hnot; [reflexivity|].
  simpl. unfold stage.
  destruct (String.eqb tok "weight") eqn:Hw.
  - apply String.eqb_eq in Hw. subst. exfalso. apply Hnot. now left.
  - rewrite Hn, Ha.
    match goal with
    | |- bind ?m _ = bind ?m _ => destruct m as [x1|e]; simpl
    end; [|reflexivity].
    apply IH. intros Hin. apply Hnot. now right.
Qed.

(** X14. Dropout and the weight-transform run only at a weight token:
    when the ops-order of a built operation has none, apply does not
    depend on the kind of operation or on its dropout - it is the
    normalization and activation stages alone, as for an IdentityOp. *)
Theorem no_weight_token_no_transform :
  forall call op,
    new call = Ok op ->
    ~ In "weight" (split "_" (call_ops_order call)) ->
    forall (T : Type) (HT : Torch T) (x : T),
      forward op x
      = forward (mkOp (mkBaseOp (ops_list (base op)) (norm (base op))
                                (activation (base op)) None)
                      IdentityOp_body) x.
Proof.
  intros call op Hnew Hnot T HT x.
  unfold forward. simpl. symmetry.
  apply stages_without_weight; try reflexivity.
  now rewrite (new_ops_list _ _ Hnew).
Qed.

Lemma no_weight_token_no_transform_witness :
  exists op,
    new (ConvOps 32 32 (mkConvKw 3 2 1 false false (1 # 2) "norm_act")) = Ok op
    /\ forward op (Sym.Input "x" [1; 32; 8; 8; 8])
       = Ok (Sym.ReluT (Sym.GroupNormT "norm" (mkGroupNorm 2 32)
                          (Sym.Input "x" [1; 32; 8; 8; 8]))).
Proof.
  eexists. split; [reflexivity|].
  refine (eq_trans
            (no_weight_token_no_transform
               (ConvOps 32 32 (mkConvKw 3 2 1 false false (1 # 2) "norm_act"))
               _ eq_refl _ Sym.term Sym.torch (Sym.Input "x" [1; 32; 8; 8; 8]))
            eq_refl).
  apply mem_false. reflexivity.
Defined.

(** ** Channel counts *)

Lemma se_gate_other_channels n c c' d h w :
  c' <> c -> 0 <= n -> 1 <= c' -> 1 <= d -> 1 <= h -> 1 <= w ->
  se_gate 1 [Linear c 1; ReLU; Linear 1 c; Sigmoid] [n; c'; d; h; w]
  = Err RuntimeError.
Proof.
  intros Hcc Hn Hc Hd Hh Hw.
  cbv [se_gate size Shape.torch adaptive_avg_pool3d_call
       Shape.adaptive_avg_pool3d_shape Shape.all_pos forallb].
  settle_tests.
  cbv [andb bind view Shape.view_shape forallb Shape.prod fold_right].
  settle_tests.
  cbv [andb sequential_call bind linear_call Shape.linear_shape].
  settle_tests. reflexivity.
Qed.

(** X15. Except for the two pooling entries, an operation the registry
    builds for c channels rejects a 5-D input with another channel
    count: apply raises a run-time error. *)
Theorem registry_rejects_other_channels :
  forall name f c stride n c' d h w,
    dict_get OPS name = Some f ->
    name <> "avg_pool" -> name <> "max_pool" ->
    1 <= c -> 1 <= c' -> c' <> c -> 1 <= n -> 5 <= d -> 5 <= h -> 5 <= w ->
    Shape.apply (f c stride) [n; c'; d; h; w] = Err RuntimeError.
Proof.
  intros name f c stride n c' d h w Hget Havg Hmax Hc Hc' Hcc Hn Hd Hh Hw.
  registry_cases Hget; try congruence; crunch;
    rewrite ?se_gate_other_channels by lia;
    cbv [Shape.group_norm_shape num_channels]; settle_tests;
    reflexivity.
Qed.

Lemma registry_rejects_other_channels_witness :
  Shape.apply (SEConvOp 16 16 SEConvOp_defaults) [1; 8; 6; 6; 6]
  = Err RuntimeError.
Proof.
  refine (registry_rejects_other_channels "se_conv"
            (fun c _ => SEConvOp c c SEConvOp_defaults) 16 1 1 8 6 6 6
            eq_refl _ _ _ _ _ _ _ _ _);
    solve [lia | now apply String.eqb_neq].
Defined.
